(** * allennlp/nn/initializers.py

    A shallow embedding of [block_orthogonal], the initializer registry,
    [Initializer.from_params] and [InitializerApplicator.__call__], and the
    properties of the module's specification proved over it.

    Python values are modelled as the code uses them: [int] as [Z], tensor
    dimension sizes as [nat], [dict] and [set] as stdpp's [gmap] and [gset],
    exceptions as a result that carries the state reached when they are
    raised.  The regular-expression engine, the numeric routines of
    [torch.nn.init] and the random generator they draw from are external
    collaborators and are taken as parameters. *)

From stdpp Require Import gmap strings list pretty sorting.
From Stdlib Require Import ZArith Lia.

Local Open Scope Z_scope.

(** ** Python built-ins *)

Module Py.

Inductive Exn : Type :=
| ConfigurationError (msg : string)
| ZeroDivisionError
| ValueError (msg : string)
| TypeError (msg : string)
| IndexError (msg : string).

(** [a % b] on ints: the result has the sign of the divisor, and a zero
    divisor raises. *)
Definition mod_ (a b : Z) : Exn + Z :=
  if b =? 0 then inl ZeroDivisionError else inr (a mod b).

(** [len(range(start, stop, step))] for a non-zero step. *)
Definition range_len (start stop step : Z) : nat :=
  if 0 <? step then
    if start <? stop then Z.to_nat ((stop - start - 1) / step + 1) else 0%nat
  else
    if stop <? start then Z.to_nat ((start - stop - 1) / (- step) + 1) else 0%nat.

(** [list(range(start, stop, step))]. *)
Definition range (start stop step : Z) : Exn + list Z :=
  if step =? 0 then inl (ValueError "range() arg 3 must not be zero")
  else inr (map (fun i : nat => start + Z.of_nat i * step)
                (seq 0 (range_len start stop step))).

(** [itertools.product] over the unpacked pools, as the library documents it:
    [result = [[]]; for pool in pools: result = [x+[y] for x in result for y in pool]]. *)
Definition product_step {A} (result : list (list A)) (pool : list A) : list (list A) :=
  flat_map (fun x => map (fun y => x ++ [y]) pool) result.

Definition product {A} (pools : list (list A)) : list (list A) :=
  foldl product_step [[]] pools.

(** [repr] of a list of ints: ["[10, 5]"]. *)
Fixpoint join (sep : string) (l : list string) : string :=
  match l with
  | [] => EmptyString
  | [x] => x
  | x :: rest => x +:+ sep +:+ join sep rest
  end.

Definition repr_ints (l : list Z) : string :=
  "[" +:+ join ", " (map pretty l) +:+ "]".

(** [slice(start, stop)] with the default step. *)
Record slice : Type := Slice { start : Z; stop : Z }.

(** [slice.indices(n)] for the default step: negative bounds count from
    the end, and both are clamped to [0, n]. *)
Definition clamp (n : nat) (i : Z) : Z :=
  if i <? 0 then Z.max (i + Z.of_nat n) 0 else Z.min i (Z.of_nat n).

Definition in_slice (n : nat) (s : slice) (i : nat) : bool :=
  (clamp n (start s) <=? Z.of_nat i) && (Z.of_nat i <? clamp n (stop s)).

Definition slice_len (n : nat) (s : slice) : nat :=
  Z.to_nat (clamp n (stop s) - clamp n (start s)).

End Py.

Export Py.

(** A computation that returns a value or raises: [x ← m; k] runs [k] on
    the value of [m] and passes an exception of [m] on. *)
Global Instance exn_ret : MRet (sum Exn) := fun _ x => inr x.
Global Instance exn_bind : MBind (sum Exn) := fun _ _ k m =>
  match m with inl e => inl e | inr x => k x end.

(** The lexicographic Cartesian product: the first pool varies slowest. *)
Fixpoint cartesian {A} (pools : list (list A)) : list (list A) :=
  match pools with
  | [] => [[]]
  | pool :: rest => flat_map (fun y => map (cons y) (cartesian rest)) pool
  end.

(** ** Tensors *)

Section Initializers.

(** The element type of tensors and the type of the [gain] argument. *)
Variable Float : Type.
(** The literal [1.0]. *)
Variable float_one : Float.
(** The state of the random generator the numeric routines draw from. *)
Variable Generator : Type.

(** A tensor: its [size()] and its elements by multi-index. *)
Record Tensor : Type := mkTensor {
  size : list nat;
  data : list nat -> Float
}.

(** The argument of an initializer: a raw tensor, or an autograd
    [Variable] wrapping one in its [.data]. *)
Inductive TensorArg : Type :=
| Raw (t : Tensor)
| Var (t : Tensor).

Definition arg_tensor (a : TensorArg) : Tensor :=
  match a with Raw t => t | Var t => t end.

(** A multi-index lies in the tensor's index space. *)
Fixpoint in_bounds (sizes : list nat) (idx : list nat) : bool :=
  match sizes, idx with
  | [], [] => true
  | n :: sizes', i :: idx' => (i <? n)%nat && in_bounds sizes' idx'
  | _, _ => false
  end.

(** [idx] is selected by [tensor[block_slice]]: the slices constrain the
    leading dimensions, the dimensions after them are taken whole. *)
Fixpoint in_block (sizes : list nat) (block : list slice) (idx : list nat) {struct block}
    : bool :=
  match block with
  | [] => true
  | s :: block' =>
      match sizes, idx with
      | n :: sizes', i :: idx' => in_slice n s i && in_block sizes' block' idx'
      | _, _ => false
      end
  end.

Fixpoint block_shape (sizes : list nat) (block : list slice) {struct block} : list nat :=
  match block, sizes with
  | s :: block', n :: sizes' => slice_len n s :: block_shape sizes' block'
  | _, _ => sizes
  end.

(** The offset of a block's first element, per sliced dimension. *)
Fixpoint block_origin (sizes : list nat) (block : list slice) {struct block} : list nat :=
  match block, sizes with
  | s :: block', n :: sizes' => Z.to_nat (clamp n (start s)) :: block_origin sizes' block'
  | _, _ => []
  end.

Fixpoint shift (origin idx : list nat) : list nat :=
  match origin, idx with
  | o :: origin', i :: idx' => (o + i)%nat :: shift origin' idx'
  | _, _ => idx
  end.

Fixpoint unshift (origin idx : list nat) : list nat :=
  match origin, idx with
  | o :: origin', i :: idx' => (i - o)%nat :: unshift origin' idx'
  | _, _ => idx
  end.

(** [tensor[block_slice]]; more slices than dimensions is an error. *)
Definition getitem (t : Tensor) (block : list slice) : Exn + Tensor :=
  if (length (size t) <? length block)%nat then inl (IndexError "too many indices for tensor")
  else inr {| size := block_shape (size t) block;
              data := fun idx => data t (shift (block_origin (size t) block) idx) |}.

(** [tensor[block_slice] = src]. *)
Definition setitem (t : Tensor) (block : list slice) (src : Tensor) : Exn + Tensor :=
  if (length (size t) <? length block)%nat then inl (IndexError "too many indices for tensor")
  else inr {| size := size t;
              data := fun idx =>
                if in_block (size t) block idx
                then data src (unshift (block_origin (size t) block) idx)
                else data t idx |}.

(** ** Configuration values and the numeric routines *)

(** A value of a configuration file. *)
#[warnings="-register-all"] Inductive Value : Type :=
| VInt (n : Z)
| VFloat (x : Float)
| VStr (s : string)
| VList (l : list Value).

(** The routines of [torch.nn.init] that the registry wraps. *)
Inductive TorchInit : Type :=
| normal | uniform | orthogonal | constant | dirac
| xavier_normal | xavier_uniform | kaiming_normal | kaiming_uniform
| sparse | eye.

(** What a call leaves behind: the exception it raised if any, the
    elements of the tensor it was given, and the generator state. *)
Record Outcome : Type := mkOutcome {
  raised : option Exn;
  tensor_after : Tensor;
  gen_after : Generator
}.

(** [torch.nn.init.<routine>(tensor, **kwargs)]. *)
Variable torch_nn_init :
  TorchInit -> TensorArg -> gmap string Value -> Generator -> Outcome.

(** ** block_orthogonal *)

(** The run of [block_orthogonal]: [run_writes] lists the slice
    assignments [tensor[block_slice] = ...] performed, in order, and
    [run_returned] is the value returned ([None] for Python's [None]). *)
Record BlockRun : Type := mkBlockRun {
  run_raised : option Exn;
  run_returned : option TensorArg;
  run_tensor : Tensor;
  run_gen : Generator;
  run_writes : list (list slice)
}.

(** [[a % b != 0 for a, b in zip(sizes, split_sizes)]]: the list is built
    in full before [any] looks at it. *)
Fixpoint remainders (pairs : list (Z * Z)) : Exn + list bool :=
  match pairs with
  | [] => inr []
  | (a, b) :: rest =>
      r ← mod_ a b;
      flags ← remainders rest;
      mret (negb (r =? 0) :: flags)
  end.

Definition any (flags : list bool) : bool := existsb id flags.

Definition divisibility_message (sizes split_sizes : list Z) : string :=
  "tensor dimensions must be divisible by their respective split_sizes. Found size: "
    +:+ repr_ints sizes +:+ " and split_sizes: " +:+ repr_ints split_sizes.

(** [[list(range(0, max_size, split)) for max_size, split in zip(sizes, split_sizes)]]. *)
Fixpoint indexes (pairs : list (Z * Z)) : Exn + list (list Z) :=
  match pairs with
  | [] => inr []
  | (max_size, split) :: rest =>
      r ← range 0 max_size split;
      rs ← indexes rest;
      mret (r :: rs)
  end.

(** [tuple([slice(start_index, start_index + step)
           for start_index, step in zip(block_start_indices, split_sizes)])]. *)
Definition block_slice (block_start_indices split_sizes : list Z) : list slice :=
  map (fun p : Z * Z => Slice (fst p) (fst p + snd p))
      (zip block_start_indices split_sizes).

(** The loop over [itertools.product] of the unpacked [indexes]. *)
Fixpoint for_blocks (blocks : list (list Z)) (split_sizes : list Z) (gain : Value)
    (tensor : Tensor) (g : Generator) (writes : list (list slice)) : BlockRun :=
  match blocks with
  | [] => mkBlockRun None None tensor g writes
  | block_start_indices :: rest =>
      let bs := block_slice block_start_indices split_sizes in
      match getitem tensor bs with
      | inl e => mkBlockRun (Some e) None tensor g writes
      | inr sub =>
          (* [.contiguous()] hands the routine a copy of the block *)
          let o := torch_nn_init orthogonal (Raw sub) {[ "gain" := gain ]} g in
          match raised o with
          | Some e => mkBlockRun (Some e) None tensor (gen_after o) writes
          | None =>
              match setitem tensor bs (tensor_after o) with
              | inl e => mkBlockRun (Some e) None tensor (gen_after o) writes
              | inr tensor' =>
                  for_blocks rest split_sizes gain tensor' (gen_after o) (writes ++ [bs])
              end
          end
      end
  end.

(** The body of [block_orthogonal] below the [isinstance] test. *)
Definition block_orthogonal_tensor (tensor : Tensor) (split_sizes : list Z)
    (gain : Value) (g : Generator) : BlockRun :=
  let sizes := map Z.of_nat (size tensor) in
  match remainders (zip sizes split_sizes) with
  | inl e => mkBlockRun (Some e) None tensor g []
  | inr flags =>
      if any flags
      then mkBlockRun (Some (ConfigurationError (divisibility_message sizes split_sizes)))
                      None tensor g []
      else
        match indexes (zip sizes split_sizes) with
        | inl e => mkBlockRun (Some e) None tensor g []
        | inr idx => for_blocks (product idx) split_sizes gain tensor g []
        end
  end.

(** [block_orthogonal(tensor, split_sizes, gain)]: a [Variable] is
    initialized through its [.data] and then returned. *)
Definition block_orthogonal (tensor : TensorArg) (split_sizes : list Z)
    (gain : Value) (g : Generator) : BlockRun :=
  match tensor with
  | Var data_ =>
      let r := block_orthogonal_tensor data_ split_sizes gain g in
      match run_raised r with
      | Some _ => r
      | None => mkBlockRun None (Some (Var (run_tensor r))) (run_tensor r) (run_gen r) (run_writes r)
      end
  | Raw t => block_orthogonal_tensor t split_sizes gain g
  end.

(** The block slices [block_orthogonal] visits for a tensor of the given
    sizes, in the order of the loop. *)
Definition block_slices (sizes : list nat) (split_sizes : list Z) : Exn + list (list slice) :=
  idx ← indexes (zip (map Z.of_nat sizes) split_sizes);
  mret (map (fun starts => block_slice starts split_sizes) (product idx)).

(** ** The wrapper and the registry *)

(** The functions [_initializer_wrapper] is applied to. *)
Inductive InitFunction : Type :=
| torch_init (routine : TorchInit)
| block_orthogonal_function.

(** An instance of the class [Init] that [_initializer_wrapper] builds. *)
Record Init : Type := mkInit {
  _init_function : InitFunction;
  _kwargs : gmap string Value
}.

Fixpoint as_ints (l : list Value) : option (list Z) :=
  match l with
  | [] => Some []
  | VInt n :: rest => cons n <$> as_ints rest
  | _ :: _ => None
  end.

(** Python binds the keyword arguments to the signature
    [(tensor, split_sizes, gain=1.0)]: an unknown keyword or a missing
    [split_sizes] is a [TypeError].  [split_sizes] is a [List[int]]; a
    value of another type is rejected here, before the tensor is touched. *)
Definition bind_block_orthogonal (kwargs : gmap string Value) : Exn + (list Z * Value) :=
  if bool_decide (dom kwargs ⊆ ({[ "split_sizes"; "gain" ]} : gset string)) then
    match kwargs !! "split_sizes" with
    | None => inl (TypeError "block_orthogonal() missing 1 required positional argument: 'split_sizes'")
    | Some (VList l) =>
        match as_ints l with
        | Some split_sizes => inr (split_sizes, default (VFloat float_one) (kwargs !! "gain"))
        | None => inl (TypeError "split_sizes must be a list of ints")
        end
    | Some _ => inl (TypeError "split_sizes must be a list of ints")
    end
  else inl (TypeError "block_orthogonal() got an unexpected keyword argument").

(** [init_function(tensor, **kwargs)]. *)
Definition invoke (init_function : InitFunction) (tensor : TensorArg)
    (kwargs : gmap string Value) (g : Generator) : Outcome :=
  match init_function with
  | torch_init routine => torch_nn_init routine tensor kwargs g
  | block_orthogonal_function =>
      match bind_block_orthogonal kwargs with
      | inl e => mkOutcome (Some e) (arg_tensor tensor) g
      | inr (split_sizes, gain) =>
          let r := block_orthogonal tensor split_sizes gain g in
          mkOutcome (run_raised r) (run_tensor r) (run_gen r)
      end
  end.

(** [Init.__call__(self, tensor)]. *)
Definition Init__call__ (self : Init) (tensor : TensorArg) (g : Generator) : Outcome :=
  invoke (_init_function self) tensor (_kwargs self) g.

(** [_initializer_wrapper(init_function)]: the class, as its constructor
    [Init.__init__(self, **kwargs)]. *)
Definition _initializer_wrapper (init_function : InitFunction) : gmap string Value -> Init :=
  fun kwargs => mkInit init_function kwargs.

(** [Init.from_params(params)]: the class applied to the unpacked
    [params.as_dict()]. *)
Definition Init_from_params (cls : gmap string Value -> Init) (params : gmap string Value) : Init :=
  cls params.

(** A dict display: later entries overwrite earlier ones. *)
Definition dict {A} (entries : list (string * A)) : gmap string A :=
  foldl (fun d e => <[ fst e := snd e ]> d) ∅ entries.

Definition registered : list (string * InitFunction) :=
  [ ("normal", torch_init normal);
    ("uniform", torch_init uniform);
    ("orthogonal", torch_init orthogonal);
    ("constant", torch_init constant);
    ("dirac", torch_init dirac);
    ("xavier_normal", torch_init xavier_normal);
    ("xavier_uniform", torch_init xavier_uniform);
    ("kaiming_normal", torch_init kaiming_normal);
    ("kaiming_uniform", torch_init kaiming_uniform);
    ("sparse", torch_init sparse);
    ("eye", torch_init eye);
    ("block_orthogonal", block_orthogonal_function) ].

(** [Registrable._registry[Initializer]]. *)
Definition _registry : gmap string (gmap string Value -> Init) :=
  dict (map (fun e => (fst e, _initializer_wrapper (snd e))) registered).

(** ** Initializer.from_params *)

(** Modelled from the spec: [Registrable.by_name], which is not part of
    this module.  The registry maps a name to its constructor, and
    "construction fails with a configuration error if the name is not
    registered". *)
Definition by_name (name : string) : Exn + (gmap string Value -> Init) :=
  match _registry !! name with
  | Some cls => inr cls
  | None => inl (ConfigurationError (name +:+ " is not a registered name for Initializer"))
  end.

(** Modelled from the spec: [Registrable.list_available], the registered
    names. *)
Definition list_available : list string := map fst registered.

(** Modelled from the spec: [Params.pop_choice], which removes the
    required field [key] from the map and returns it when it is one of
    [choices], and fails with a configuration error otherwise. *)
Definition pop_choice (params : gmap string Value) (key : string) (choices : list string)
    : Exn + (string * gmap string Value) :=
  match params !! key with
  | Some (VStr value) =>
      if bool_decide (value ∈ choices) then inr (value, delete key params)
      else inl (ConfigurationError (value +:+ " not in acceptable choices for " +:+ key))
  | Some _ => inl (ConfigurationError ("value not in acceptable choices for " +:+ key))
  | None => inl (ConfigurationError ("key " +:+ key +:+ " is required"))
  end.

(** The argument of [from_params]: a bare string or a [Params] map. *)
Inductive InitParams : Type :=
| PStr (name : string)
| PMap (params : gmap string Value).

(** [Initializer.from_params(params)]. *)
Definition Initializer_from_params (params : InitParams) : Exn + Init :=
  match params with
  | PStr name =>
      cls ← by_name name;
      mret (cls ∅)
  | PMap params =>
      popped ← pop_choice params "type" list_available;
      cls ← by_name (fst popped);
      mret (Init_from_params cls (snd popped))
  end.

(** ** InitializerApplicator *)

(** [re.search(pattern, string)] as a truth value: does the pattern match
    somewhere in the string.  Patterns are taken to be well-formed. *)
Variable re_search : string -> string -> bool.

Inductive Level : Type := INFO | WARNING.

Record InitializerApplicator : Type := mkApplicator {
  _initializers : list (string * Init)
}.

(** [InitializerApplicator.__init__(initializers=None)]:
    [self._initializers = initializers or []]. *)
Definition InitializerApplicator__init__ (initializers : option (list (string * Init)))
    : InitializerApplicator :=
  mkApplicator (default [] initializers).

(** [InitializerApplicator.from_params(params)]. *)
Fixpoint from_params_list (params : list (string * InitParams)) : Exn + list (string * Init) :=
  match params with
  | [] => inr []
  | (name, init_params) :: rest =>
      init ← Initializer_from_params init_params;
      inits ← from_params_list rest;
      mret ((name, init) :: inits)
  end.

Definition InitializerApplicator_from_params (params : list (string * InitParams))
    : Exn + InitializerApplicator :=
  initializers ← from_params_list params;
  mret (InitializerApplicator__init__ (Some initializers)).

(** The local state of [__call__].  [calls] is a ghost record of the
    initializer invocations: the position of the parameter in
    [named_parameters()] and the position of the pair in [_initializers]. *)
Record ApplyState : Type := mkApplyState {
  log : list (Level * string);
  unused_regexes : gset string;
  uninitialized_parameters : gset string;
  gen : Generator;
  calls : list (nat * nat)
}.

(** The inner loop with its [break]: the first pair, from position [k] on,
    whose regex is found in [name]. *)
Fixpoint first_match (initializers : list (string * Init)) (name : string) (k : nat)
    : option (nat * (string * Init)) :=
  match initializers with
  | [] => None
  | (initializer_regex, initializer) :: rest =>
      if re_search initializer_regex name
      then Some (k, (initializer_regex, initializer))
      else first_match rest name (S k)
  end.

Definition initializing_message (name initializer_regex : string) : string :=
  "Initializing " +:+ name +:+ " using " +:+ initializer_regex +:+ " intitializer".

Definition unused_message (regex : string) : string :=
  "Did not use initialization regex that was passed: " +:+ regex.

Definition done_message : string :=
  "Done initializing parameters; the following parameters are using their default initialization from their code".

Definition default_message (name : string) : string := "   " +:+ name.

(** The loop over [module.named_parameters()], from the parameter at
    position [j] on.  An exception of an initializer leaves the loop; the
    parameters not yet reached keep their tensors. *)
Fixpoint for_parameters (initializers : list (string * Init)) (j : nat)
    (named_parameters : list (string * Tensor)) (st : ApplyState)
    : option Exn * list (string * Tensor) * ApplyState :=
  match named_parameters with
  | [] => (None, [], st)
  | (name, parameter) :: rest =>
      match first_match initializers name 0 with
      | Some (k, (initializer_regex, initializer)) =>
          let o := Init__call__ initializer (Var parameter) (gen st) in
          let st1 := mkApplyState
                       (log st ++ [(INFO, initializing_message name initializer_regex)])
                       (unused_regexes st) (uninitialized_parameters st)
                       (gen_after o) (calls st ++ [(j, k)]) in
          match raised o with
          | Some e => (Some e, (name, tensor_after o) :: rest, st1)
          | None =>
              let st2 := mkApplyState (log st1)
                           (unused_regexes st1 ∖ {[ initializer_regex ]})
                           (uninitialized_parameters st1) (gen st1) (calls st1) in
              let '(r, rest', st3) := for_parameters initializers (S j) rest st2 in
              (r, (name, tensor_after o) :: rest', st3)
          end
      | None =>
          let st1 := mkApplyState (log st) (unused_regexes st)
                       ({[ name ]} ∪ uninitialized_parameters st) (gen st) (calls st) in
          let '(r, rest', st2) := for_parameters initializers (S j) rest st1 in
          (r, (name, parameter) :: rest', st2)
      end
  end.

(** The run of [__call__]: the exception it raised if any, the value it
    returned otherwise ([None] for Python's [None]), the module's named
    parameters afterwards and the final local state. *)
Record ApplyRun : Type := mkApplyRun {
  apply_raised : option Exn;
  apply_returned : option TensorArg;
  module_after : list (string * Tensor);
  final : ApplyState
}.

(** [InitializerApplicator.__call__(self, module)], with the module given
    by its [named_parameters()], which yields every parameter object once:
    the tensors of the list are distinct objects.  The two sets are
    iterated in the order of [elements]; Python leaves the order of a set
    unspecified. *)
Definition InitializerApplicator__call__ (self : InitializerApplicator)
    (module : list (string * Tensor)) (g : Generator) : ApplyRun :=
  let st0 := mkApplyState [(INFO, "Initializing parameters")]
               (list_to_set (map fst (_initializers self))) ∅ g [] in
  let '(r, module', st) := for_parameters (_initializers self) 0 module st0 in
  match r with
  | Some e => mkApplyRun (Some e) None module' st
  | None =>
      mkApplyRun None None module'
        (mkApplyState
           (log st
              ++ map (fun regex => (WARNING, unused_message regex)) (elements (unused_regexes st))
              ++ [(INFO, done_message)]
              ++ map (fun name => (INFO, default_message name))
                     (elements (uninitialized_parameters st)))
           (unused_regexes st) (uninitialized_parameters st) (gen st) (calls st))
  end.

End Initializers.

Arguments mkTensor {Float} size data.
Arguments size {Float} t.
Arguments data {Float} t idx.
Arguments Raw {Float} t.
Arguments Var {Float} t.
Arguments arg_tensor {Float} a.
Arguments getitem {Float} t block.
Arguments setitem {Float} t block src.
Arguments VInt {Float} n.
Arguments VFloat {Float} x.
Arguments VStr {Float} s.
Arguments VList {Float} l.
Arguments mkOutcome {Float Generator} raised tensor_after gen_after.
Arguments raised {Float Generator} o.
Arguments tensor_after {Float Generator} o.
Arguments gen_after {Float Generator} o.
Arguments mkBlockRun {Float Generator}.
Arguments run_raised {Float Generator} b.
Arguments run_returned {Float Generator} b.
Arguments run_tensor {Float Generator} b.
Arguments run_gen {Float Generator} b.
Arguments run_writes {Float Generator} b.
Arguments for_blocks {Float Generator} torch_nn_init blocks split_sizes gain tensor g writes.
Arguments block_orthogonal_tensor {Float Generator} torch_nn_init tensor split_sizes gain g.
Arguments block_orthogonal {Float Generator} torch_nn_init tensor split_sizes gain g.
Arguments mkInit {Float}.
Arguments _init_function {Float} i.
Arguments _kwargs {Float} i.
Arguments as_ints {Float} l.
Arguments bind_block_orthogonal {Float} float_one kwargs.
Arguments invoke {Float} float_one {Generator} torch_nn_init init_function tensor kwargs g.
Arguments Init__call__ {Float} float_one {Generator} torch_nn_init self tensor g.
Arguments _initializer_wrapper {Float} init_function.
Arguments Init_from_params {Float} cls params.
Arguments pop_choice {Float} params key choices.
Arguments PStr {Float} name.
Arguments PMap {Float} params.
Arguments Initializer_from_params {Float} params.
Arguments mkApplicator {Float}.
Arguments _initializers {Float} i.
Arguments InitializerApplicator__init__ {Float} initializers.
Arguments from_params_list {Float} params.
Arguments InitializerApplicator_from_params {Float} params.
Arguments mkApplyState {Generator}.
Arguments log {Generator} a.
Arguments unused_regexes {Generator} a.
Arguments uninitialized_parameters {Generator} a.
Arguments gen {Generator} a.
Arguments calls {Generator} a.
Arguments first_match {Float} re_search initializers name k.
Arguments for_parameters {Float} float_one {Generator} torch_nn_init re_search
  initializers j named_parameters st.
Arguments mkApplyRun {Float Generator}.
Arguments apply_raised {Float Generator} a.
Arguments apply_returned {Float Generator} a.
Arguments module_after {Float Generator} a.
Arguments final {Float Generator} a.
Arguments InitializerApplicator__call__ {Float} float_one {Generator} torch_nn_init re_search
  self module g.

(** ** A small instance of the external collaborators

    Integer-valued tensors, a counter for the generator, routines that
    fill the tensor with a value, and literal substring search for the
    regular expressions (what [re.search] does for a pattern without
    metacharacters).  It serves to run the model on concrete inputs. *)

Module Demo.

Definition fill (t : Tensor Z) (x : Z) : Tensor Z :=
  mkTensor (size t) (fun _ => x).

Definition torch_nn_init (routine : TorchInit) (tensor : TensorArg Z)
    (kwargs : gmap string (Value Z)) (g : nat) : Outcome Z nat :=
  let t := arg_tensor tensor in
  match routine with
  | constant =>
      match kwargs !! "val" with
      | Some (VInt x) => mkOutcome None (fill t x) g
      | Some (VFloat x) => mkOutcome None (fill t x) g
      | _ => mkOutcome (Some (TypeError "constant() missing 1 required positional argument: 'val'")) t g
      end
  | orthogonal =>
      if (length (size t) <? 2)%nat
      then mkOutcome (Some (ValueError "Only tensors with 2 or more dimensions are supported")) t g
      else mkOutcome None (fill t (Z.of_nat (S g))) (S g)
  | _ => mkOutcome None (fill t (Z.of_nat (S g))) (S g)
  end.

Definition re_search (pattern s : string) : bool :=
  match String.index 0 pattern s with Some _ => true | None => false end.

Definition zeros (sizes : list nat) : Tensor Z := mkTensor sizes (fun _ => 0).

Definition const (x : Z) : Init Z := mkInit (torch_init constant) {[ "val" := VInt x ]}.

End Demo.

(** ** Definitions used to state the properties *)

(** The offsets [0, split, 2*split, ...] below [max_size], for a split
    size that divides it. *)
Definition offsets (max_size split : Z) : list Z :=
  map (fun k : nat => Z.of_nat k * split) (seq 0 (Z.to_nat (max_size / split))).

(** Every split size paired with a dimension is positive and divides the
    dimension's size. *)
Definition evenly_split (sizes : list nat) (split_sizes : list Z) : Prop :=
  Forall (fun p : Z * Z => 0 < snd p /\ (snd p | fst p))
         (zip (map Z.of_nat sizes) split_sizes).

(** The pools of offsets, one per dimension paired with a split size. *)
Definition offset_pools (sizes : list nat) (split_sizes : list Z) : list (list Z) :=
  map (fun p : Z * Z => offsets (fst p) (snd p)) (zip (map Z.of_nat sizes) split_sizes).

(** The number of blocks of the list that select the multi-index. *)
Definition covering (sizes : list nat) (blocks : list (list slice)) (idx : list nat) : nat :=
  length (List.filter (fun block => in_block sizes block idx) blocks).

(** The lexicographic order on tuples of offsets of one length. *)
Fixpoint lex_lt (a b : list Z) : Prop :=
  match a, b with
  | x :: a', y :: b' => x < y \/ (x = y /\ lex_lt a' b')
  | _, _ => False
  end.

(** The exception was raised by the orthogonal routine on some block. *)
Definition raised_by_orthogonal {Float Generator : Type}
    (torch_nn_init : TorchInit -> TensorArg Float -> gmap string (Value Float) -> Generator
                     -> Outcome Float Generator)
    (gain : Value Float) (e : Exn) : Prop :=
  exists (sub : Tensor Float) (g : Generator),
    raised (torch_nn_init orthogonal (Raw sub) {[ "gain" := gain ]} g) = Some e.

(** The invocations a complete run makes, in order: for each parameter,
    from position [j] on, the position of its first matching pair. *)
Fixpoint expected_calls {Float} (re_search : string -> string -> bool)
    (initializers : list (string * Init Float)) (j : nat)
    (named_parameters : list (string * Tensor Float)) : list (nat * nat) :=
  match named_parameters with
  | [] => []
  | (name, _) :: rest =>
      match first_match re_search initializers name 0 with
      | Some (k, _) => (j, k) :: expected_calls re_search initializers (S j) rest
      | None => expected_calls re_search initializers (S j) rest
      end
  end.

(** The regexes that are the first match of some parameter. *)
Fixpoint used_regexes {Float} (re_search : string -> string -> bool)
    (initializers : list (string * Init Float))
    (named_parameters : list (string * Tensor Float)) : list string :=
  match named_parameters with
  | [] => []
  | (name, _) :: rest =>
      match first_match re_search initializers name 0 with
      | Some (_, (regex, _)) => regex :: used_regexes re_search initializers rest
      | None => used_regexes re_search initializers rest
      end
  end.

(** The names of the parameters that no pattern matches. *)
Fixpoint unmatched_names {Float} (re_search : string -> string -> bool)
    (initializers : list (string * Init Float))
    (named_parameters : list (string * Tensor Float)) : list string :=
  match named_parameters with
  | [] => []
  | (name, _) :: rest =>
      match first_match re_search initializers name 0 with
      | Some _ => unmatched_names re_search initializers rest
      | None => name :: unmatched_names re_search initializers rest
      end
  end.

(** The pair at position [k] is the first whose regex is found in [name]. *)
Definition is_first_match {Float : Type} (re_search : string -> string -> bool)
    (initializers : list (string * Init Float)) (name : string)
    (k : nat) (regex : string) (init : Init Float) : Prop :=
  initializers !! k = Some (regex, init)
  /\ re_search regex name = true
  /\ forall k' p, (k' < k)%nat -> initializers !! k' = Some p -> re_search (fst p) name = false.

(** The state in which [__call__] enters the loop over the parameters. *)
Definition initial_state {Float Generator : Type}
    (self : InitializerApplicator Float) (g : Generator)
    : ApplyState Generator :=
  mkApplyState [(INFO, "Initializing parameters")]
    (list_to_set (map fst (_initializers self))) ∅ g [].

(** Inputs on which the properties below are run. *)

Module Examples.

Import Demo.

Definition applicator : InitializerApplicator Z :=
  InitializerApplicator__init__ (Some [ ("weight", const 1); ("layer", const 2); ("bias", const 3) ]).

Definition layer : list (string * Tensor Z) :=
  [ ("layer.weight", zeros [2; 2]%nat); ("embedding", zeros [3]%nat) ].

Definition shadowed : InitializerApplicator Z :=
  InitializerApplicator__init__ (Some [ ("a", const 1); ("ab", const 2); ("ab", const 3) ]).

Definition duplicated : InitializerApplicator Z :=
  InitializerApplicator__init__ (Some [ ("x", const 1); ("ab", const 2); ("ab", const 3) ]).

Definition run := InitializerApplicator__call__ 1 torch_nn_init re_search.

End Examples.

(** ** Definitions used to state further properties *)

(** The number of blocks of an evenly split tensor: the product, over the
    dimensions paired with a split size, of [size / split]. *)
Definition block_count (sizes : list nat) (split_sizes : list Z) : nat :=
  foldr (fun (p : Z * Z) acc => (Z.to_nat (fst p / snd p) * acc)%nat) 1%nat
        (zip (map Z.of_nat sizes) split_sizes).

(** [list(range(0, max_size, split))] for a non-zero [split]. *)
Definition range_from_zero (max_size split : Z) : list Z :=
  map (fun i : nat => 0 + Z.of_nat i * split) (seq 0 (range_len 0 max_size split)).

Module MoreExamples.

Import Demo.

(** An initializer whose routine raises: [constant] without its [val]. *)
Definition broken : Init Z := mkInit (torch_init constant) ∅.

Definition failing : InitializerApplicator Z :=
  InitializerApplicator__init__ (Some [ ("weight", broken) ]).

Definition blocky (split_sizes : list Z) : Init Z :=
  mkInit block_orthogonal_function
         {[ "split_sizes" := VList (map VInt split_sizes) ]}.

Definition config : list (string * InitParams Z) :=
  [ ("weight", PMap {[ "type" := VStr "constant"; "val" := VInt 7 ]});
    ("bias", PStr "uniform") ].


Definition model : list (string * Tensor Z) :=
  [ ("embedding", zeros [3]%nat); ("layer.weight", zeros [10; 5]%nat);
    ("layer.bias", zeros [5]%nat) ].

End MoreExamples.

(** ** Facts about the built-ins *)

Lemma flat_map_singleton_app {A} (acc : list (list A)) :
  flat_map (fun x => [x ++ []]) acc = acc.
Proof.
  induction acc as [|x acc IH]; simpl; [reflexivity|].
  rewrite app_nil_r, IH. reflexivity.
Qed.

Lemma map_flat_map {A B C} (f : B -> C) (g : A -> list B) (l : list A) :
  map f (flat_map g l) = flat_map (fun x => map f (g x)) l.
Proof.
  induction l as [|x l IH]; simpl; [reflexivity|].
  rewrite List.map_app, IH. reflexivity.
Qed.

Lemma flat_map_map {A B C} (f : A -> B) (g : B -> list C) (l : list A) :
  flat_map g (map f l) = flat_map (fun x => g (f x)) l.
Proof.
  induction l as [|x l IH]; simpl; [reflexivity|].
  rewrite IH. reflexivity.
Qed.

Lemma flat_map_flat_map {A B C} (f : A -> list B) (g : B -> list C) (l : list A) :
  flat_map g (flat_map f l) = flat_map (fun x => flat_map g (f x)) l.
Proof.
  induction l as [|x l IH]; simpl; [reflexivity|].
  rewrite List.flat_map_app, IH. reflexivity.
Qed.

Lemma foldl_product_step {A} (pools : list (list A)) (acc : list (list A)) :
  foldl product_step acc pools = flat_map (fun x => map (app x) (cartesian pools)) acc.
Proof.
  revert acc. induction pools as [|pool rest IH]; intros acc; simpl.
  - symmetry. apply flat_map_singleton_app.
  - rewrite IH. unfold product_step. rewrite flat_map_flat_map.
    apply List.flat_map_ext. intros x.
    rewrite flat_map_map, map_flat_map.
    apply List.flat_map_ext. intros y.
    rewrite List.map_map. apply List.map_ext. intros z.
    rewrite <- app_assoc. reflexivity.
Qed.

(** [itertools.product] enumerates the lexicographic Cartesian product. *)
Lemma product_cartesian {A} (pools : list (list A)) : product pools = cartesian pools.
Proof.
  unfold product. rewrite foldl_product_step. simpl.
  rewrite app_nil_r.
  transitivity (map (fun x : list A => x) (cartesian pools)).
  - apply List.map_ext. reflexivity.
  - apply List.map_id.
Qed.

Lemma cartesian_length {A} (pools : list (list A)) (t : list A) :
  t ∈ cartesian pools -> length t = length pools.
Proof.
  revert t. induction pools as [|pool rest IH]; intros t; simpl.
  - intros Ht. apply list_elem_of_singleton in Ht. subst. reflexivity.
  - rewrite list_elem_of_In, in_flat_map. intros (y & _ & Hy).
    apply in_map_iff in Hy. destruct Hy as (t' & <- & Ht').
    simpl. f_equal. apply IH. apply list_elem_of_In. exact Ht'.
Qed.

Lemma range_len_divisible (max_size split : Z) :
  0 <= max_size -> 0 < split -> max_size mod split = 0 ->
  range_len 0 max_size split = Z.to_nat (max_size / split).
Proof.
  intros Hn Hs Hd. unfold range_len.
  destruct (Z.ltb_spec 0 split) as [_|]; [|lia].
  apply Z.div_exact in Hd; [|lia].
  set (q := max_size / split) in *.
  destruct (Z.ltb_spec 0 max_size) as [Hpos|Hz].
  - f_equal. rewrite Z.sub_0_r.
    assert (0 < q) by nia.
    replace (max_size - 1) with ((q - 1) * split + (split - 1)) by lia.
    rewrite Z.div_add_l by lia. rewrite Z.div_small by lia. lia.
  - assert (q = 0) by nia. lia.
Qed.

Lemma range_divisible (max_size split : Z) :
  0 <= max_size -> 0 < split -> max_size mod split = 0 ->
  range 0 max_size split = inr (offsets max_size split).
Proof.
  intros Hn Hs Hd. unfold range, offsets.
  destruct (Z.eqb_spec split 0) as [|_]; [lia|].
  rewrite range_len_divisible by assumption. reflexivity.
Qed.

Lemma range_negative (max_size split : Z) :
  0 <= max_size -> split < 0 -> range 0 max_size split = inr [].
Proof.
  intros Hn Hs. unfold range, range_len.
  destruct (Z.eqb_spec split 0); [lia|].
  destruct (Z.ltb_spec 0 split); [lia|].
  destruct (Z.ltb_spec max_size 0); [lia|]. reflexivity.
Qed.

Lemma offsets_spec (max_size split o : Z) :
  0 <= max_size -> 0 < split -> max_size mod split = 0 ->
  o ∈ offsets max_size split <-> exists k : nat, o = Z.of_nat k * split /\ o < max_size.
Proof.
  intros Hn Hs Hd. unfold offsets.
  apply Z.div_exact in Hd; [|lia].
  set (q := max_size / split) in *.
  rewrite list_elem_of_In, in_map_iff. split.
  - intros (k & <- & Hk). apply in_seq in Hk. exists k. split; [reflexivity|].
    assert (Z.of_nat k < q) by lia. nia.
  - intros (k & -> & Hlt). exists k. split; [reflexivity|].
    apply in_seq. assert (Z.of_nat k < q) by nia. lia.
Qed.

(** ** Facts about the divisibility check and the block enumeration *)

Lemma remainders_nonzero (pairs : list (Z * Z)) :
  Forall (fun p => snd p <> 0) pairs ->
  remainders pairs = inr (map (fun p => negb (fst p mod snd p =? 0)) pairs).
Proof.
  induction 1 as [|[a b] pairs Hb _ IH]; simpl in *; [reflexivity|].
  unfold mod_. destruct (Z.eqb_spec b 0) as [|_]; [contradiction|].
  simpl. rewrite IH. reflexivity.
Qed.

Lemma remainders_zero (pairs : list (Z * Z)) :
  Exists (fun p => snd p = 0) pairs -> remainders pairs = inl ZeroDivisionError.
Proof.
  induction pairs as [|[a b] pairs IH]; intros Hex; [inversion Hex|].
  simpl. unfold mod_. destruct (Z.eqb_spec b 0) as [|Hb]; [reflexivity|].
  simpl. inversion Hex as [? ? H0|? ? Hrest]; subst; [simpl in H0; contradiction|].
  rewrite IH by assumption. reflexivity.
Qed.

Lemma any_map_false {A} (f : A -> bool) (l : list A) :
  Forall (fun x => f x = false) l -> any (map f l) = false.
Proof.
  induction 1 as [|x l Hx _ IH]; simpl; [reflexivity|].
  unfold any in *. simpl. rewrite Hx, IH. reflexivity.
Qed.

Lemma any_map_true {A} (f : A -> bool) (l : list A) :
  Exists (fun x => f x = true) l -> any (map f l) = true.
Proof.
  induction 1 as [x l Hx|x l _ IH]; unfold any in *; simpl.
  - rewrite Hx. reflexivity.
  - rewrite IH. apply orb_true_r.
Qed.

Lemma evenly_split_remainders (sizes : list nat) (split_sizes : list Z) :
  evenly_split sizes split_sizes ->
  exists flags, remainders (zip (map Z.of_nat sizes) split_sizes) = inr flags
                /\ any flags = false.
Proof.
  intros H. eexists. split.
  - apply remainders_nonzero. eapply Forall_impl; [exact H|].
    intros [a b] [Hb _]; simpl in *. lia.
  - apply any_map_false. eapply Forall_impl; [exact H|].
    intros [a b] [Hb Hd]; simpl in *.
    apply Z.mod_divide in Hd; [|lia]. rewrite Hd. reflexivity.
Qed.

Lemma indexes_evenly (pairs : list (Z * Z)) :
  Forall (fun p => 0 <= fst p /\ 0 < snd p /\ (snd p | fst p)) pairs ->
  indexes pairs = inr (map (fun p => offsets (fst p) (snd p)) pairs).
Proof.
  induction 1 as [|[a b] pairs (Ha & Hb & Hd) _ IH]; simpl in *; [reflexivity|].
  rewrite range_divisible; [|lia|lia|apply Z.mod_divide; [lia|exact Hd]].
  simpl. rewrite IH. reflexivity.
Qed.

Lemma zip_sizes_nonneg (sizes : list nat) (split_sizes : list Z) :
  Forall (fun p : Z * Z => 0 <= fst p) (zip (map Z.of_nat sizes) split_sizes).
Proof.
  revert split_sizes. induction sizes as [|n sizes IH]; intros [|s split_sizes]; simpl;
    try constructor; simpl; [lia|apply IH].
Qed.

Lemma evenly_split_indexes (sizes : list nat) (split_sizes : list Z) :
  evenly_split sizes split_sizes ->
  indexes (zip (map Z.of_nat sizes) split_sizes) = inr (offset_pools sizes split_sizes).
Proof.
  intros H. apply indexes_evenly.
  pose proof (zip_sizes_nonneg sizes split_sizes) as Hn.
  unfold evenly_split in H. rewrite Forall_forall in *.
  intros p Hp. specialize (H p Hp). specialize (Hn p Hp). tauto.
Qed.

Lemma evenly_split_block_slices (sizes : list nat) (split_sizes : list Z) :
  evenly_split sizes split_sizes ->
  block_slices sizes split_sizes
  = inr (map (fun starts => block_slice starts split_sizes)
             (cartesian (offset_pools sizes split_sizes))).
Proof.
  intros H. unfold block_slices. rewrite evenly_split_indexes by assumption.
  simpl. rewrite product_cartesian. reflexivity.
Qed.

Lemma offset_pools_length (sizes : list nat) (split_sizes : list Z) :
  length (offset_pools sizes split_sizes) = Nat.min (length sizes) (length split_sizes).
Proof.
  unfold offset_pools. rewrite length_map, length_zip_with, length_map. reflexivity.
Qed.

Lemma block_slice_length (starts split_sizes : list Z) :
  length (block_slice starts split_sizes) = Nat.min (length starts) (length split_sizes).
Proof.
  unfold block_slice. rewrite length_map, length_zip_with. reflexivity.
Qed.

Lemma count_eqb_seq (q a m : nat) :
  length (List.filter (fun k => Nat.eqb k q) (seq a m))
  = if bool_decide (a <= q < a + m)%nat then 1%nat else 0%nat.
Proof.
  revert a. induction m as [|m IH]; intros a; simpl.
  - rewrite bool_decide_eq_false_2 by lia. reflexivity.
  - destruct (Nat.eqb_spec a q) as [Heq|Hne]; simpl; rewrite (IH (S a)).
    + rewrite bool_decide_eq_false_2 by lia.
      rewrite bool_decide_eq_true_2 by lia. reflexivity.
    + destruct (decide (S a <= q < S a + m)%nat).
      * rewrite !bool_decide_eq_true_2 by lia. reflexivity.
      * rewrite !bool_decide_eq_false_2 by lia. reflexivity.
Qed.

Lemma in_slice_offset (n : nat) (s : Z) (k i : nat) :
  0 < s -> Z.of_nat k * s + s <= Z.of_nat n ->
  in_slice n (Slice (Z.of_nat k * s) (Z.of_nat k * s + s)) i
  = Nat.eqb k (Z.to_nat (Z.of_nat i / s)).
Proof.
  intros Hs Hle. unfold in_slice, clamp. simpl.
  destruct (Z.ltb_spec (Z.of_nat k * s) 0); [nia|].
  destruct (Z.ltb_spec (Z.of_nat k * s + s) 0); [nia|].
  rewrite !Z.min_l by nia.
  pose proof (Z.div_mod (Z.of_nat i) s ltac:(lia)) as Hdm.
  pose proof (Z.mod_pos_bound (Z.of_nat i) s Hs) as Hb.
  assert (0 <= Z.of_nat i / s) by (apply Z.div_pos; lia).
  destruct (Nat.eqb_spec k (Z.to_nat (Z.of_nat i / s))) as [->|Hne].
  - rewrite Z2Nat.id by assumption.
    apply andb_true_iff. split; [apply Z.leb_le|apply Z.ltb_lt]; nia.
  - apply andb_false_iff.
    destruct (Z.leb_spec (Z.of_nat k * s) (Z.of_nat i)) as [Hlo|]; [|left; reflexivity].
    right. apply Z.ltb_ge.
    assert (Z.of_nat k <> Z.of_nat i / s) by lia.
    assert (Z.of_nat k <= Z.of_nat i / s) by (apply Z.div_le_lower_bound; lia).
    nia.
Qed.

(** Along one dimension, exactly one offset's slice holds a given index. *)
Lemma offsets_cover_once (n : nat) (s : Z) (i : nat) :
  0 < s -> (s | Z.of_nat n) -> (i < n)%nat ->
  length (List.filter (fun o => in_slice n (Slice o (o + s)) i) (offsets (Z.of_nat n) s)) = 1%nat.
Proof.
  intros Hs Hd Hi. unfold offsets.
  apply Z.mod_divide in Hd; [|lia]. apply Z.div_exact in Hd; [|lia].
  set (q := Z.of_nat n / s) in *.
  assert (0 <= q) by (apply Z.div_pos; lia).
  rewrite List.filter_map_swap, length_map.
  rewrite List.filter_ext_in with (g := fun k => Nat.eqb k (Z.to_nat (Z.of_nat i / s))).
  - rewrite count_eqb_seq. rewrite bool_decide_eq_true_2; [reflexivity|].
    assert (Z.of_nat i / s < q) by (apply Z.div_lt_upper_bound; lia).
    assert (0 <= Z.of_nat i / s) by (apply Z.div_pos; lia). lia.
  - intros k Hk. apply in_seq in Hk. apply in_slice_offset; [assumption|].
    assert (Z.of_nat k < q) by lia. nia.
Qed.

Lemma filter_flat_map_length {A B} (p : B -> bool) (g : A -> list B) (q : A -> bool)
    (c : nat) (l : list A) :
  (forall x, In x l -> length (List.filter p (g x)) = if q x then c else 0%nat) ->
  length (List.filter p (flat_map g l)) = (c * length (List.filter q l))%nat.
Proof.
  induction l as [|x l IH]; intros H; simpl; [lia|].
  rewrite List.filter_app, length_app, IH by (intros; apply H; right; assumption).
  rewrite (H x) by (left; reflexivity).
  destruct (q x); simpl; lia.
Qed.

Lemma block_slice_cons (y : Z) (starts : list Z) (s : Z) (split_sizes : list Z) :
  block_slice (y :: starts) (s :: split_sizes)
  = Slice y (y + s) :: block_slice starts split_sizes.
Proof. reflexivity. Qed.

(** The blocks tile the index space: every multi-index of the tensor lies
    in exactly one block. *)
Lemma covering_cartesian (sizes : list nat) (split_sizes : list Z) (idx : list nat) :
  evenly_split sizes split_sizes ->
  in_bounds sizes idx = true ->
  covering sizes (map (fun starts => block_slice starts split_sizes)
                      (cartesian (offset_pools sizes split_sizes))) idx = 1%nat.
Proof.
  revert split_sizes idx.
  induction sizes as [|n sizes IH]; intros split_sizes idx Hev Hin.
  - reflexivity.
  - destruct split_sizes as [|s split_sizes]; [reflexivity|].
    destruct idx as [|i idx]; [discriminate|].
    simpl in Hin. apply andb_true_iff in Hin. destruct Hin as [Hi Hin].
    apply Nat.ltb_lt in Hi.
    unfold evenly_split in Hev. simpl in Hev.
    apply Forall_cons in Hev. destruct Hev as [[Hs Hd] Hev]. simpl in Hs, Hd.
    unfold covering, offset_pools. simpl.
    rewrite map_flat_map.
    rewrite filter_flat_map_length
      with (q := fun o => in_slice n (Slice o (o + s)) i) (c := 1%nat).
    + rewrite offsets_cover_once by assumption. reflexivity.
    + intros y _. rewrite List.map_map.
      rewrite List.filter_map_swap, length_map.
      rewrite List.filter_ext with
        (g := fun starts => in_slice n (Slice y (y + s)) i
                            && in_block sizes (block_slice starts split_sizes) idx)
        by reflexivity.
      destruct (in_slice n (Slice y (y + s)) i); simpl.
      * specialize (IH split_sizes idx Hev Hin).
        unfold covering in IH. rewrite List.filter_map_swap, length_map in IH.
        exact IH.
      * clear. induction (cartesian _); simpl; auto.
Qed.

(** ** Lexicographic order of the enumeration *)

Lemma StronglySorted_map_cons (y : Z) (l : list (list Z)) :
  StronglySorted lex_lt l -> StronglySorted lex_lt (map (cons y) l).
Proof.
  induction 1 as [|t l _ IH Hall]; simpl; constructor; [assumption|].
  rewrite Forall_forall in *. intros t' Ht'.
  apply list_elem_of_In, in_map_iff in Ht'. destruct Ht' as (u & <- & Hu).
  simpl. right. split; [reflexivity|]. apply Hall, list_elem_of_In, Hu.
Qed.

Lemma cartesian_sorted (pools : list (list Z)) :
  Forall (StronglySorted Z.lt) pools -> StronglySorted lex_lt (cartesian pools).
Proof.
  induction 1 as [|pool pools Hpool _ IH]; simpl.
  - repeat constructor.
  - induction Hpool as [|y pool _ IHpool Hall]; simpl; [constructor|].
    apply StronglySorted_app_2.
    + intros t1 t2 Ht1 Ht2.
      apply list_elem_of_In, in_map_iff in Ht1. destruct Ht1 as (u1 & <- & _).
      apply list_elem_of_In, in_flat_map in Ht2. destruct Ht2 as (y' & Hy' & Ht2).
      apply in_map_iff in Ht2. destruct Ht2 as (u2 & <- & _).
      simpl. left. rewrite Forall_forall in Hall. apply Hall, list_elem_of_In, Hy'.
    + apply StronglySorted_map_cons, IH.
    + exact IHpool.
Qed.

Lemma offsets_sorted (max_size split : Z) :
  0 < split -> StronglySorted Z.lt (offsets max_size split).
Proof.
  intros Hs. unfold offsets. generalize (Z.to_nat (max_size / split)) as m.
  generalize 0%nat as a. intros a m. revert a.
  induction m as [|m IH]; intros a; simpl; constructor; [apply IH|].
  rewrite Forall_forall. intros o Ho.
  apply list_elem_of_In, in_map_iff in Ho. destruct Ho as (k & <- & Hk).
  apply in_seq in Hk. nia.
Qed.

Lemma offset_pools_sorted (sizes : list nat) (split_sizes : list Z) :
  evenly_split sizes split_sizes ->
  Forall (StronglySorted Z.lt) (offset_pools sizes split_sizes).
Proof.
  intros H. unfold offset_pools. apply Forall_forall. intros pool Hp.
  apply list_elem_of_In, in_map_iff in Hp. destruct Hp as ([a b] & <- & Hab).
  unfold evenly_split in H. rewrite Forall_forall in H.
  apply list_elem_of_In in Hab. destruct (H _ Hab) as [Hb _].
  apply offsets_sorted. exact Hb.
Qed.

(** ** Runs of block_orthogonal *)

Section BlockRuns.

Context {Float Generator : Type}.
Variable torch_nn_init :
  TorchInit -> TensorArg Float -> gmap string (Value Float) -> Generator
  -> Outcome Float Generator.

Lemma for_blocks_run (blocks : list (list Z)) (split_sizes : list Z) (gain : Value Float) :
  forall (t : Tensor Float) (g : Generator) (w : list (list slice)),
  Forall (fun starts => (length (block_slice starts split_sizes) <= length (size t))%nat) blocks ->
  let r := for_blocks torch_nn_init blocks split_sizes gain t g w in
  exists done,
    run_writes r = w ++ done
    /\ done `prefix_of` map (fun starts => block_slice starts split_sizes) blocks
    /\ (run_raised r = None -> done = map (fun starts => block_slice starts split_sizes) blocks)
    /\ (forall e, run_raised r = Some e -> raised_by_orthogonal torch_nn_init gain e)
    /\ size (run_tensor r) = size t
    /\ run_returned r = None.
Proof.
  induction blocks as [|starts blocks IH]; intros t g w Hlen; simpl.
  - exists []. rewrite app_nil_r. repeat split; try reflexivity; try discriminate.
  - apply Forall_cons in Hlen. destruct Hlen as [Hl Hlen].
    unfold getitem, setitem.
    assert ((length (size t) <? length (block_slice starts split_sizes))%nat = false) as ->
      by (apply Nat.ltb_ge; exact Hl).
    set (sub := mkTensor _ _).
    destruct (raised (torch_nn_init orthogonal (Raw sub) {[ "gain" := gain ]} g)) as [e|] eqn:Hr.
    + exists []. simpl. rewrite app_nil_r. repeat split; try reflexivity; try discriminate.
      * apply prefix_nil.
      * intros e' [= <-]. exists sub, g. exact Hr.
    + set (t' := mkTensor _ _).
      destruct (IH t' (gen_after (torch_nn_init orthogonal (Raw sub) {[ "gain" := gain ]} g))
                  (w ++ [block_slice starts split_sizes]) Hlen)
        as (done & Hw & Hp & Hn & He & Hsz & Hret).
      exists (block_slice starts split_sizes :: done).
      rewrite Hw, <- app_assoc. repeat split; try assumption.
      * apply (prefix_app [_]). exact Hp.
      * intros Hnone. rewrite (Hn Hnone). reflexivity.
Qed.

(** With positive split sizes that divide the sizes, [block_orthogonal]
    passes its check and assigns to the enumerated blocks in order; it
    stops early only when the orthogonal routine raises. *)
Lemma block_orthogonal_tensor_run (tensor : Tensor Float) (split_sizes : list Z)
    (gain : Value Float) (g : Generator) :
  evenly_split (size tensor) split_sizes ->
  let r := block_orthogonal_tensor torch_nn_init tensor split_sizes gain g in
  let blocks := map (fun starts => block_slice starts split_sizes)
                    (cartesian (offset_pools (size tensor) split_sizes)) in
  run_writes r `prefix_of` blocks
  /\ (run_raised r = None -> run_writes r = blocks)
  /\ (forall e, run_raised r = Some e -> raised_by_orthogonal torch_nn_init gain e)
  /\ size (run_tensor r) = size tensor
  /\ run_returned r = None.
Proof.
  intros Hev. unfold block_orthogonal_tensor.
  destruct (evenly_split_remainders _ _ Hev) as (flags & -> & ->).
  rewrite evenly_split_indexes by assumption. rewrite product_cartesian.
  destruct (for_blocks_run (cartesian (offset_pools (size tensor) split_sizes))
              split_sizes gain tensor g []) as (done & Hw & Hp & Hn & He & Hsz & Hret).
  - apply Forall_forall. intros starts Hst.
    apply cartesian_length in Hst.
    rewrite block_slice_length, Hst, offset_pools_length. lia.
  - simpl in Hw. simpl. rewrite Hw. repeat split; assumption.
Qed.

End BlockRuns.

Section BlockErrors.

Context {Float Generator : Type}.
Variable torch_nn_init :
  TorchInit -> TensorArg Float -> gmap string (Value Float) -> Generator
  -> Outcome Float Generator.




Lemma block_orthogonal_arg (tensor : TensorArg Float) (split_sizes : list Z)
    (gain : Value Float) (g : Generator) :
  let r := block_orthogonal torch_nn_init tensor split_sizes gain g in
  let r' := block_orthogonal_tensor torch_nn_init (arg_tensor tensor) split_sizes gain g in
  run_raised r = run_raised r' /\ run_tensor r = run_tensor r'
  /\ run_gen r = run_gen r' /\ run_writes r = run_writes r'.
Proof.
  destruct tensor as [t|t]; simpl; [repeat split|].
  destruct (run_raised (block_orthogonal_tensor torch_nn_init t split_sizes gain g)) eqn:Hr;
    simpl; rewrite ?Hr; repeat split.
Qed.

End BlockErrors.





(** ** Runs of the applicator *)

Section ApplyRuns.

Context {Float Generator : Type}.
Variable float_one : Float.
Variable torch_nn_init :
  TorchInit -> TensorArg Float -> gmap string (Value Float) -> Generator
  -> Outcome Float Generator.
Variable re_search : string -> string -> bool.

Local Abbreviation loop := (for_parameters float_one torch_nn_init re_search).
Local Abbreviation call := (Init__call__ float_one torch_nn_init).
Local Abbreviation scan := (first_match re_search).

Lemma first_match_Some (initializers : list (string * Init Float)) (name : string)
    (k0 k : nat) (regex : string) (init : Init Float) :
  scan initializers name k0 = Some (k, (regex, init)) <->
  exists i, k = (k0 + i)%nat /\ is_first_match re_search initializers name i regex init.
Proof.
  revert k0. induction initializers as [|[rx ini] rest IH]; intros k0; simpl.
  - split; [discriminate|]. intros (i & _ & Hi & _). discriminate.
  - destruct (re_search rx name) eqn:Hrx.
    + split.
      * intros [= <- <- <-]. exists 0%nat. split; [lia|].
        split; [reflexivity|]. split; [assumption|]. intros; lia.
      * intros (i & -> & Hi & Hm & Hlt). destruct i as [|i].
        -- simpl in Hi. injection Hi as <- <-. f_equal. f_equal. lia.
        -- specialize (Hlt 0%nat (rx, ini) ltac:(lia) eq_refl). simpl in Hlt. congruence.
    + rewrite IH. split.
      * intros (i & -> & Hi & Hm & Hlt). exists (S i). split; [lia|].
        split; [exact Hi|]. split; [exact Hm|].
        intros [|k'] p Hk' Hp; simpl in Hp.
        -- injection Hp as <-. exact Hrx.
        -- apply (Hlt k' p); [lia|exact Hp].
      * intros (i & -> & Hi & Hm & Hlt). destruct i as [|i].
        -- simpl in Hi. injection Hi as <- <-. congruence.
        -- exists i. split; [lia|]. split; [exact Hi|]. split; [exact Hm|].
           intros k' p Hk' Hp. apply (Hlt (S k') p); [lia|exact Hp].
Qed.

Lemma first_match_None (initializers : list (string * Init Float)) (name : string) (k0 : nat) :
  scan initializers name k0 = None <->
  forall p, p ∈ initializers -> re_search (fst p) name = false.
Proof.
  revert k0. induction initializers as [|[rx ini] rest IH]; intros k0; simpl.
  - split; [|reflexivity]. intros _ p Hp. inversion Hp.
  - destruct (re_search rx name) eqn:Hrx.
    + split; [discriminate|]. intros H.
      specialize (H (rx, ini) ltac:(left)). simpl in H. congruence.
    + rewrite IH. split.
      * intros H p Hp. apply elem_of_cons in Hp. destruct Hp as [->|Hp]; [exact Hrx|].
        apply H, Hp.
      * intros H p Hp. apply H. right. exact Hp.
Qed.

(** One case analysis per iteration of the loop over the parameters. *)
Ltac loop_step name Hm Hr Hrec :=
  simpl;
  destruct (scan _ name 0) as [[k [regex init]]|] eqn:Hm;
  [ match goal with
    | |- context [raised ?o] => destruct (raised o) eqn:Hr
    end;
    [ | match goal with
        | |- context [loop ?i ?j ?ps ?st] =>
            destruct (loop i j ps st) as [[r0 rest'] st3] eqn:Hrec
        end ]
  | match goal with
    | |- context [loop ?i ?j ?ps ?st] =>
        destruct (loop i j ps st) as [[r0 rest'] st3] eqn:Hrec
    end ].

Lemma for_parameters_names (initializers : list (string * Init Float))
    (ps : list (string * Tensor Float)) :
  forall j st r ps' st', loop initializers j ps st = (r, ps', st') ->
  map fst ps' = map fst ps.
Proof.
  induction ps as [|[name t] ps IH]; intros j st r ps' st'.
  - simpl. intros [= <- <- <-]. reflexivity.
  - loop_step name Hm Hr Hrec; intros [= <- <- <-]; simpl; f_equal; eauto.
Qed.

Lemma for_parameters_calls (initializers : list (string * Init Float))
    (ps : list (string * Tensor Float)) :
  forall j st r ps' st', loop initializers j ps st = (r, ps', st') ->
  exists cs, calls st' = calls st ++ cs
             /\ cs `prefix_of` expected_calls re_search initializers j ps
             /\ (r = None -> cs = expected_calls re_search initializers j ps).
Proof.
  induction ps as [|[name t] ps IH]; intros j st r ps' st'.
  - simpl. intros [= <- <- <-]. exists []. rewrite app_nil_r.
    split; [reflexivity|]. split; [apply prefix_nil|reflexivity].
  - loop_step name Hm Hr Hrec; intros [= <- <- <-]; simpl.
    + exists [(j, k)]. split; [reflexivity|]. split; [|discriminate].
      apply (prefix_app [_]), prefix_nil.
    + destruct (IH _ _ _ _ _ Hrec) as (cs & Hc & Hp & Hn). simpl in Hc.
      exists ((j, k) :: cs). rewrite Hc, <- app_assoc.
      split; [reflexivity|]. split.
      * apply (prefix_app [_]), Hp.
      * intros Hnone. rewrite (Hn Hnone). reflexivity.
    + destruct (IH _ _ _ _ _ Hrec) as (cs & Hc & Hp & Hn). simpl in Hc.
      exists cs. split; [assumption|]. split; assumption.
Qed.

Lemma expected_calls_positions (initializers : list (string * Init Float))
    (ps : list (string * Tensor Float)) (j : nat) (c : nat * nat) :
  c ∈ expected_calls re_search initializers j ps ->
  exists pos name t k regex init,
    c = ((j + pos)%nat, k) /\ ps !! pos = Some (name, t)
    /\ is_first_match re_search initializers name k regex init.
Proof.
  revert j. induction ps as [|[name t] ps IH]; intros j; simpl.
  - intros H. inversion H.
  - destruct (scan initializers name 0) as [[k [regex init]]|] eqn:Hm.
    + intros H. apply elem_of_cons in H. destruct H as [->|H].
      * apply first_match_Some in Hm. destruct Hm as (i & -> & Hi).
        exists 0%nat, name, t, i, regex, init. split; [f_equal; lia|]. split; [reflexivity|exact Hi].
      * destruct (IH _ H) as (pos & name' & t' & k' & regex' & init' & -> & Hl & Hf).
        exists (S pos), name', t', k', regex', init'. split; [f_equal; lia|]. split; assumption.
    + intros H.
      destruct (IH _ H) as (pos & name' & t' & k' & regex' & init' & -> & Hl & Hf).
      exists (S pos), name', t', k', regex', init'. split; [f_equal; lia|]. split; assumption.
Qed.

Lemma expected_calls_complete (initializers : list (string * Init Float))
    (ps : list (string * Tensor Float)) (j pos : nat) (name : string) (t : Tensor Float)
    (k : nat) (regex : string) (init : Init Float) :
  ps !! pos = Some (name, t) ->
  is_first_match re_search initializers name k regex init ->
  ((j + pos)%nat, k) ∈ expected_calls re_search initializers j ps.
Proof.
  revert j pos. induction ps as [|[name' t'] ps IH]; intros j pos Hl Hf; [discriminate|].
  destruct pos as [|pos]; simpl in *.
  - injection Hl as -> ->.
    assert (scan initializers name 0 = Some (k, (regex, init))) as ->
      by (apply first_match_Some; exists k; split; [reflexivity|assumption]).
    rewrite Nat.add_0_r. left.
  - replace (j + S pos)%nat with (S j + pos)%nat by lia.
    destruct (scan initializers name' 0) as [[? ?]|]; [right|]; apply IH; assumption.
Qed.

Lemma expected_calls_from (initializers : list (string * Init Float))
    (ps : list (string * Tensor Float)) (j : nat) :
  Forall (fun c => (j <= fst c)%nat) (expected_calls re_search initializers j ps).
Proof.
  apply Forall_forall. intros c Hc.
  apply expected_calls_positions in Hc.
  destruct Hc as (pos & ? & ? & k & ? & ? & -> & _). simpl. lia.
Qed.

Lemma expected_calls_NoDup (initializers : list (string * Init Float))
    (ps : list (string * Tensor Float)) (j : nat) :
  NoDup (map fst (expected_calls re_search initializers j ps)).
Proof.
  revert j. induction ps as [|[name t] ps IH]; intros j; simpl; [constructor|].
  destruct (scan initializers name 0) as [[k ?]|]; [|apply IH].
  simpl. constructor; [|apply IH].
  intros Hin. apply list_elem_of_In, in_map_iff in Hin. destruct Hin as (c & Hc & Hin).
  pose proof (expected_calls_from initializers ps (S j)) as Hfrom.
  rewrite Forall_forall in Hfrom. apply list_elem_of_In in Hin.
  specialize (Hfrom c Hin). lia.
Qed.

(** What the loop does to each parameter: a recorded invocation is that
    of the first matching pair and leaves the tensor the initializer
    produced; a parameter without a recorded invocation keeps its tensor. *)
Lemma for_parameters_run (initializers : list (string * Init Float))
    (ps : list (string * Tensor Float)) :
  forall j st r ps' st', loop initializers j ps st = (r, ps', st') ->
  exists cs, calls st' = calls st ++ cs
    /\ Forall (fun c => (j <= fst c)%nat) cs
    /\ forall pos name t, ps !! pos = Some (name, t) ->
         (forall k, ((j + pos)%nat, k) ∈ cs ->
            exists regex init g',
              is_first_match re_search initializers name k regex init
              /\ ps' !! pos = Some (name, tensor_after (call init (Var t) g')))
         /\ ((forall k, ((j + pos)%nat, k) ∉ cs) -> ps' !! pos = Some (name, t)).
Proof.
  induction ps as [|[name t] ps IH]; intros j st r ps' st'.
  - simpl. intros [= <- <- <-]. exists []. rewrite app_nil_r.
    split; [reflexivity|]. split; [constructor|]. intros pos ? ? Hl. discriminate.
  - loop_step name Hm Hr Hrec; intros [= <- <- <-]; simpl.
    + exists [(j, k)]. split; [reflexivity|]. split; [repeat constructor|].
      apply first_match_Some in Hm. destruct Hm as (i & -> & Hi). change (0 + i)%nat with i in *.
      intros [|pos] name' t' Hl; simpl in Hl.
      * injection Hl as <- <-. rewrite Nat.add_0_r. split.
        -- intros k' Hk'. apply list_elem_of_singleton in Hk'. injection Hk' as ->.
           exists regex, init, (gen st). split; [exact Hi|reflexivity].
        -- intros Hnot. exfalso. apply (Hnot i). left.
      * split.
        -- intros k' Hk'. apply list_elem_of_singleton in Hk'. injection Hk' as ? ?. lia.
        -- intros _. exact Hl.
    + destruct (IH _ _ _ _ _ Hrec) as (cs & Hc & Hfrom & Heff). simpl in Hc.
      exists ((j, k) :: cs). rewrite Hc, <- app_assoc.
      split; [reflexivity|]. split.
      { constructor; [simpl; lia|]. eapply Forall_impl; [exact Hfrom|]. simpl. intros; lia. }
      apply first_match_Some in Hm. destruct Hm as (i & -> & Hi). change (0 + i)%nat with i in *.
      rewrite Forall_forall in Hfrom.
      intros [|pos] name' t' Hl; simpl in Hl.
      * injection Hl as <- <-. rewrite Nat.add_0_r. split.
        -- intros k' Hk'. apply elem_of_cons in Hk'. destruct Hk' as [Hk'|Hk'].
           ++ injection Hk' as ->. exists regex, init, (gen st). split; [exact Hi|reflexivity].
           ++ specialize (Hfrom _ Hk'). simpl in Hfrom. lia.
        -- intros Hnot. exfalso. apply (Hnot i). left.
      * destruct (Heff pos name' t' Hl) as [Hyes Hno].
        replace (j + S pos)%nat with (S j + pos)%nat by lia. split.
        -- intros k' Hk'. apply elem_of_cons in Hk'. destruct Hk' as [Hk'|Hk'].
           ++ injection Hk' as ? ?. lia.
           ++ apply Hyes, Hk'.
        -- intros Hnot. apply Hno. intros k' Hk'. apply (Hnot k'). right. exact Hk'.
    + destruct (IH _ _ _ _ _ Hrec) as (cs & Hc & Hfrom & Heff). simpl in Hc.
      exists cs. split; [exact Hc|]. split.
      { eapply Forall_impl; [exact Hfrom|]. simpl. intros; lia. }
      rewrite Forall_forall in Hfrom.
      intros [|pos] name' t' Hl; simpl in Hl.
      * injection Hl as <- <-. rewrite Nat.add_0_r. split.
        -- intros k' Hk'. specialize (Hfrom _ Hk'). simpl in Hfrom. lia.
        -- intros _. reflexivity.
      * destruct (Heff pos name' t' Hl) as [Hyes Hno].
        replace (j + S pos)%nat with (S j + pos)%nat by lia. split; assumption.
Qed.

Lemma for_parameters_log (initializers : list (string * Init Float))
    (ps : list (string * Tensor Float)) :
  forall j st r ps' st', loop initializers j ps st = (r, ps', st') ->
  exists entries, log st' = log st ++ entries /\ Forall (fun e => fst e = INFO) entries.
Proof.
  induction ps as [|[name t] ps IH]; intros j st r ps' st'.
  - simpl. intros [= <- <- <-]. exists []. rewrite app_nil_r. split; [reflexivity|constructor].
  - loop_step name Hm Hr Hrec; intros [= <- <- <-]; simpl.
    + eexists. split; [reflexivity|]. repeat constructor.
    + destruct (IH _ _ _ _ _ Hrec) as (entries & Hl & Hall). simpl in Hl.
      eexists. rewrite Hl, <- app_assoc. split; [reflexivity|].
      constructor; [reflexivity|exact Hall].
    + destruct (IH _ _ _ _ _ Hrec) as (entries & Hl & Hall). simpl in Hl.
      exists entries. split; assumption.
Qed.

Lemma for_parameters_unused (initializers : list (string * Init Float))
    (ps : list (string * Tensor Float)) :
  forall j st ps' st', loop initializers j ps st = (None, ps', st') ->
  unused_regexes st'
  = unused_regexes st ∖ list_to_set (used_regexes re_search initializers ps).
Proof.
  induction ps as [|[name t] ps IH]; intros j st ps' st'.
  - simpl. intros [= <- <-]. set_solver.
  - loop_step name Hm Hr Hrec; intros [= -> <- <-]; simpl.
    + rewrite (IH _ _ _ _ Hrec). simpl. set_solver.
    + rewrite (IH _ _ _ _ Hrec). reflexivity.
Qed.

Lemma for_parameters_uninitialized (initializers : list (string * Init Float))
    (ps : list (string * Tensor Float)) :
  forall j st ps' st', loop initializers j ps st = (None, ps', st') ->
  uninitialized_parameters st'
  = list_to_set (unmatched_names re_search initializers ps) ∪ uninitialized_parameters st.
Proof.
  induction ps as [|[name t] ps IH]; intros j st ps' st'.
  - simpl. intros [= <- <-]. set_solver.
  - loop_step name Hm Hr Hrec; intros [= -> <- <-]; simpl.
    + rewrite (IH _ _ _ _ Hrec). reflexivity.
    + rewrite (IH _ _ _ _ Hrec). simpl. set_solver.
Qed.

(** An exception leaves the loop only out of an initializer invoked on a
    parameter whose first matching pair holds it. *)
Lemma for_parameters_raise (initializers : list (string * Init Float))
    (ps : list (string * Tensor Float)) :
  forall j st e ps' st', loop initializers j ps st = (Some e, ps', st') ->
  exists pos name t k regex init g',
    ps !! pos = Some (name, t)
    /\ is_first_match re_search initializers name k regex init
    /\ raised (call init (Var t) g') = Some e.
Proof.
  induction ps as [|[name t] ps IH]; intros j st e ps' st'.
  - simpl. discriminate.
  - loop_step name Hm Hr Hrec; intros [= -> <- <-].
    + apply first_match_Some in Hm. destruct Hm as (i & -> & Hi).
      exists 0%nat, name, t, i, regex, init, (gen st). split; [reflexivity|]. split; assumption.
    + destruct (IH _ _ _ _ _ Hrec) as (pos & n' & t' & k' & rx & ini & g' & Hl & Hf & Hraise).
      exists (S pos), n', t', k', rx, ini, g'. split; [exact Hl|]. split; assumption.
    + destruct (IH _ _ _ _ _ Hrec) as (pos & n' & t' & k' & rx & ini & g' & Hl & Hf & Hraise).
      exists (S pos), n', t', k', rx, ini, g'. split; [exact Hl|]. split; assumption.
Qed.

Lemma used_regexes_spec (initializers : list (string * Init Float))
    (ps : list (string * Tensor Float)) (regex : string) :
  regex ∈ used_regexes re_search initializers ps <->
  exists pos name t k init,
    ps !! pos = Some (name, t) /\ is_first_match re_search initializers name k regex init.
Proof.
  induction ps as [|[name t] ps IH]; simpl.
  - split; [intros H; inversion H|]. intros (pos & ? & ? & ? & ? & Hl & _). discriminate.
  - destruct (scan initializers name 0) as [[k [rx ini]]|] eqn:Hm.
    + rewrite elem_of_cons, IH. apply first_match_Some in Hm.
      destruct Hm as (i & -> & Hi). simpl in Hi. split.
      * intros [->|(pos & n' & t' & k' & ini' & Hl & Hf)].
        -- exists 0%nat, name, t, i, ini. split; [reflexivity|exact Hi].
        -- exists (S pos), n', t', k', ini'. split; assumption.
      * intros ([|pos] & n' & t' & k' & ini' & Hl & Hf); simpl in Hl.
        -- injection Hl as <- <-. left.
           assert (scan initializers name 0 = Some (k', (regex, ini'))) as H1
             by (apply first_match_Some; exists k'; split; [reflexivity|exact Hf]).
           assert (scan initializers name 0 = Some (i, (rx, ini))) as H2
             by (apply first_match_Some; exists i; split; [reflexivity|exact Hi]).
           congruence.
        -- right. exists pos, n', t', k', ini'. split; assumption.
    + rewrite IH. split.
      * intros (pos & n' & t' & k' & ini' & Hl & Hf).
        exists (S pos), n', t', k', ini'. split; assumption.
      * intros ([|pos] & n' & t' & k' & ini' & Hl & Hf); simpl in Hl.
        -- injection Hl as <- <-.
           assert (scan initializers name 0 = Some (k', (regex, ini'))) as H1
             by (apply first_match_Some; exists k'; split; [reflexivity|exact Hf]).
           congruence.
        -- exists pos, n', t', k', ini'. split; assumption.
Qed.

Lemma unmatched_names_spec (initializers : list (string * Init Float))
    (ps : list (string * Tensor Float)) (name : string) :
  name ∈ unmatched_names re_search initializers ps <->
  (exists t, (name, t) ∈ ps) /\ scan initializers name 0 = None.
Proof.
  induction ps as [|[name' t'] ps IH]; simpl.
  - split; [intros H; inversion H|]. intros [[t Ht] _]. inversion Ht.
  - destruct (scan initializers name' 0) as [m|] eqn:Hm.
    + rewrite IH. split.
      * intros [[t Ht] Hn]. split; [exists t; right; exact Ht|exact Hn].
      * intros [[t Ht] Hn]. split; [|exact Hn].
        apply elem_of_cons in Ht. destruct Ht as [Ht|Ht]; [|exists t; exact Ht].
        injection Ht as -> ->. congruence.
    + rewrite elem_of_cons, IH. split.
      * intros [->|[[t Ht] Hn]].
        -- split; [exists t'; left|exact Hm].
        -- split; [exists t; right; exact Ht|exact Hn].
      * intros [[t Ht] Hn]. apply elem_of_cons in Ht. destruct Ht as [Ht|Ht].
        -- injection Ht as -> ->. left. reflexivity.
        -- right. split; [exists t; exact Ht|exact Hn].
Qed.

Lemma is_first_match_unique (initializers : list (string * Init Float)) (name : string)
    (k k' : nat) (regex regex' : string) (init init' : Init Float) :
  is_first_match re_search initializers name k regex init ->
  is_first_match re_search initializers name k' regex' init' ->
  k = k' /\ regex = regex' /\ init = init'.
Proof.
  intros H H'.
  assert (scan initializers name 0 = Some (k, (regex, init))) as H1
    by (apply first_match_Some; exists k; split; [reflexivity|exact H]).
  assert (scan initializers name 0 = Some (k', (regex', init'))) as H2
    by (apply first_match_Some; exists k'; split; [reflexivity|exact H']).
  rewrite H1 in H2. injection H2 as -> -> ->. repeat split.
Qed.

Lemma append_inj_r (s a b : string) : s +:+ a = s +:+ b -> a = b.
Proof.
  induction s as [|c s IH]; simpl; [trivial|]. intros [= H]. apply IH, H.
Qed.

Local Abbreviation apply := (InitializerApplicator__call__ float_one torch_nn_init re_search).

(** [__call__] in terms of its loop. *)
Lemma call_unfold (self : InitializerApplicator Float) (module : list (string * Tensor Float))
    (g : Generator) :
  exists res ps' st,
    loop (_initializers self) 0 module (initial_state self g) = (res, ps', st)
    /\ apply_raised (apply self module g) = res
    /\ apply_returned (apply self module g) = None
    /\ module_after (apply self module g) = ps'
    /\ calls (final (apply self module g)) = calls st
    /\ (res = None ->
        log (final (apply self module g))
        = log st
            ++ map (fun regex => (WARNING, unused_message regex)) (elements (unused_regexes st))
            ++ [(INFO, done_message)]
            ++ map (fun name => (INFO, default_message name))
                   (elements (uninitialized_parameters st)))
    /\ (res <> None -> log (final (apply self module g)) = log st).
Proof.
  unfold InitializerApplicator__call__. fold (initial_state self g).
  destruct (loop (_initializers self) 0 module (initial_state self g)) as [[res ps'] st].
  exists res, ps', st. destruct res; simpl; repeat split; congruence.
Qed.

(** A warning is logged exactly for the regexes of the list that are the
    first match of no parameter, and only when the loop completes. *)
Lemma warning_logged (self : InitializerApplicator Float)
    (module : list (string * Tensor Float)) (g : Generator) (m : string) :
  (WARNING, m) ∈ log (final (apply self module g)) <->
  apply_raised (apply self module g) = None
  /\ exists regex, m = unused_message regex
       /\ regex ∈ map fst (_initializers self)
       /\ regex ∉ used_regexes re_search (_initializers self) module.
Proof.
  destruct (call_unfold self module g) as (res & ps' & st & Hloop & -> & _ & _ & _ & Hlog & Hlog').
  destruct (for_parameters_log _ _ _ _ _ _ _ Hloop) as (entries & Hst & Hinfo).
  simpl in Hst. rewrite Forall_forall in Hinfo.
  destruct res as [e|].
  - rewrite Hlog', Hst by discriminate. split; [|intros [? _]; discriminate].
    intros Hin. exfalso. apply elem_of_cons in Hin. destruct Hin as [Hin|Hin]; [discriminate|].
    specialize (Hinfo _ Hin). discriminate.
  - rewrite (Hlog eq_refl), Hst. clear Hlog Hlog'.
    pose proof (for_parameters_unused _ _ _ _ _ _ Hloop) as Hun. simpl in Hun.
    rewrite !elem_of_app. split.
    + intros [Hin|[Hin|[Hin|Hin]]].
      * apply elem_of_cons in Hin. destruct Hin as [Hin|Hin]; [discriminate|].
        specialize (Hinfo _ Hin). discriminate.
      * apply list_elem_of_In, in_map_iff in Hin. destruct Hin as (regex & [= <-] & Hin).
        apply list_elem_of_In, elem_of_elements in Hin. rewrite Hun in Hin.
        apply elem_of_difference in Hin. destruct Hin as [Hin Hnot].
        rewrite elem_of_list_to_set in Hin, Hnot.
        split; [reflexivity|]. exists regex. repeat split; assumption.
      * apply list_elem_of_singleton in Hin. discriminate.
      * apply list_elem_of_In, in_map_iff in Hin. destruct Hin as (? & [=] & _).
    + intros [_ (regex & -> & Hin & Hnot)]. right. left.
      apply list_elem_of_In, in_map_iff. exists regex. split; [reflexivity|].
      apply list_elem_of_In, elem_of_elements. rewrite Hun.
      apply elem_of_difference. rewrite !elem_of_list_to_set. split; assumption.
Qed.

(** The recorded invocations of a run, related to the parameters. *)
Lemma calls_sound (self : InitializerApplicator Float) (module : list (string * Tensor Float))
    (g : Generator) (pos k : nat) :
  (pos, k) ∈ calls (final (apply self module g)) ->
  exists name t regex init g',
    module !! pos = Some (name, t)
    /\ is_first_match re_search (_initializers self) name k regex init
    /\ module_after (apply self module g) !! pos
       = Some (name, tensor_after (call init (Var t) g')).
Proof.
  destruct (call_unfold self module g) as (res & ps' & st & Hloop & _ & _ & -> & -> & _).
  destruct (for_parameters_calls _ _ _ _ _ _ _ Hloop) as (cs & Hcs & Hpre & _).
  destruct (for_parameters_run _ _ _ _ _ _ _ Hloop) as (cs' & Hcs' & _ & Heff).
  simpl in Hcs, Hcs'. rewrite Hcs' in Hcs. subst cs'. rewrite Hcs'. intros Hin.
  destruct Hpre as [rest Hrest].
  assert ((pos, k) ∈ expected_calls re_search (_initializers self) 0 module) as Hexp
    by (rewrite Hrest; apply elem_of_app; left; exact Hin).
  apply expected_calls_positions in Hexp.
  destruct Hexp as (pos' & name & t & k' & regex & init & [= -> ->] & Hl & Hf).
  destruct (Heff pos' name t Hl) as [Hyes _].
  destruct (Hyes k' Hin) as (regex' & init' & g' & Hf' & Hafter).
  exists name, t, regex', init', g'. split; [exact Hl|]. split; [exact Hf'|exact Hafter].
Qed.

Lemma calls_complete (self : InitializerApplicator Float) (module : list (string * Tensor Float))
    (g : Generator) (pos k : nat) (name : string) (t : Tensor Float)
    (regex : string) (init : Init Float) :
  apply_raised (apply self module g) = None ->
  module !! pos = Some (name, t) ->
  is_first_match re_search (_initializers self) name k regex init ->
  (pos, k) ∈ calls (final (apply self module g)).
Proof.
  destruct (call_unfold self module g) as (res & ps' & st & Hloop & -> & _ & _ & -> & _).
  intros -> Hl Hf.
  destruct (for_parameters_calls _ _ _ _ _ _ _ Hloop) as (cs & Hcs & _ & Hall).
  simpl in Hcs. rewrite Hcs, (Hall eq_refl).
  apply (expected_calls_complete _ _ 0 pos name t k regex init Hl Hf).
Qed.

Lemma calls_NoDup (self : InitializerApplicator Float) (module : list (string * Tensor Float))
    (g : Generator) :
  NoDup (map fst (calls (final (apply self module g)))).
Proof.
  destruct (call_unfold self module g) as (res & ps' & st & Hloop & _ & _ & _ & -> & _).
  destruct (for_parameters_calls _ _ _ _ _ _ _ Hloop) as (cs & Hcs & [rest Hrest] & _).
  simpl in Hcs. rewrite Hcs.
  pose proof (expected_calls_NoDup (_initializers self) module 0) as Hnd.
  rewrite Hrest, List.map_app in Hnd. apply NoDup_app in Hnd. apply Hnd.
Qed.

Lemma not_called_unchanged (self : InitializerApplicator Float)
    (module : list (string * Tensor Float)) (g : Generator) (pos : nat)
    (name : string) (t : Tensor Float) :
  module !! pos = Some (name, t) ->
  (forall k, (pos, k) ∉ calls (final (apply self module g))) ->
  module_after (apply self module g) !! pos = Some (name, t).
Proof.
  destruct (call_unfold self module g) as (res & ps' & st & Hloop & _ & _ & -> & -> & _).
  destruct (for_parameters_run _ _ _ _ _ _ _ Hloop) as (cs & Hcs & _ & Heff).
  simpl in Hcs. rewrite Hcs. intros Hl Hnot.
  destruct (Heff pos name t Hl) as [_ Hno]. apply Hno, Hnot.
Qed.

Lemma raise_source (self : InitializerApplicator Float) (module : list (string * Tensor Float))
    (g : Generator) (e : Exn) :
  apply_raised (apply self module g) = Some e ->
  exists pos name t k regex init g',
    module !! pos = Some (name, t)
    /\ is_first_match re_search (_initializers self) name k regex init
    /\ raised (call init (Var t) g') = Some e.
Proof.
  destruct (call_unfold self module g) as (res & ps' & st & Hloop & -> & _).
  intros ->. eapply for_parameters_raise, Hloop.
Qed.

Lemma unmatched_not_first (initializers : list (string * Init Float)) (name : string)
    (k : nat) (regex : string) (init : Init Float) :
  (forall p, p ∈ initializers -> re_search (fst p) name = false) ->
  ~ is_first_match re_search initializers name k regex init.
Proof.
  intros Hno (Hl & Hm & _).
  apply list_elem_of_lookup_2 in Hl. specialize (Hno _ Hl). simpl in Hno. congruence.
Qed.

(** C1: apply scans the pairs in construction order and invokes exactly
    the initializer of the first pair whose regex is found in the
    parameter name.  Every recorded invocation [(pos, k)] is on a
    parameter of the module, with the pair at position [k] whose regex
    matches the name while no earlier pair's does, and leaves in the
    module the tensor that initializer produced; no second pair is invoked
    on the parameter; and a run that returns has invoked the first
    matching pair of every parameter that has one. *)
Theorem apply_first_match_wins (self : InitializerApplicator Float)
    (module : list (string * Tensor Float)) (g : Generator) :
  let r := InitializerApplicator__call__ float_one torch_nn_init re_search self module g in
  (forall pos k, (pos, k) ∈ calls (final r) ->
     exists name t regex init g',
       module !! pos = Some (name, t)
       /\ _initializers self !! k = Some (regex, init)
       /\ re_search regex name = true
       /\ (forall k' p, (k' < k)%nat -> _initializers self !! k' = Some p ->
             re_search (fst p) name = false)
       /\ module_after r !! pos = Some (name, tensor_after (Init__call__ float_one torch_nn_init init (Var t) g')))
  /\ (forall pos k k', (pos, k) ∈ calls (final r) -> (pos, k') ∈ calls (final r) -> k = k')
  /\ (apply_raised r = None ->
      forall pos name t k regex init,
        module !! pos = Some (name, t) ->
        _initializers self !! k = Some (regex, init) ->
        re_search regex name = true ->
        (forall k' p, (k' < k)%nat -> _initializers self !! k' = Some p ->
           re_search (fst p) name = false) ->
        (pos, k) ∈ calls (final r)).
Proof.
  intros r. split; [|split].
  - intros pos k Hin.
    destruct (calls_sound self module g pos k Hin)
      as (name & t & regex & init & g' & Hl & (Hk & Hm & Hlt) & Hafter).
    exists name, t, regex, init, g'. repeat split; assumption.
  - intros pos k k' Hin Hin'.
    destruct (calls_sound self module g pos k Hin) as (name & t & ? & ? & ? & Hl & Hf & _).
    destruct (calls_sound self module g pos k' Hin') as (name' & t' & ? & ? & ? & Hl' & Hf' & _).
    rewrite Hl in Hl'. injection Hl' as <- <-.
    apply (is_first_match_unique _ _ _ _ _ _ _ _ Hf Hf').
  - intros Hnone pos name t k regex init Hl Hk Hm Hlt.
    eapply calls_complete; [exact Hnone|exact Hl|]. repeat split; eassumption.
Qed.

(** C4: a parameter whose name no pattern of the applicator matches keeps
    the tensor it had before the call, and no initializer is invoked on
    it; a run that returns logs its name among the parameters left at
    their default initialization, and an exception leaves apply only out
    of an initializer invoked on a parameter that some pattern matches. *)
Theorem apply_unmatched_unchanged (self : InitializerApplicator Float)
    (module : list (string * Tensor Float)) (g : Generator)
    (pos : nat) (name : string) (t : Tensor Float) :
  module !! pos = Some (name, t) ->
  (forall p, p ∈ _initializers self -> re_search (fst p) name = false) ->
  let r := InitializerApplicator__call__ float_one torch_nn_init re_search self module g in
  module_after r !! pos = Some (name, t)
  /\ (forall k, (pos, k) ∉ calls (final r))
  /\ (apply_raised r = None -> (INFO, default_message name) ∈ log (final r))
  /\ (forall e, apply_raised r = Some e ->
        exists pos' name' t' k regex init g',
          module !! pos' = Some (name', t')
          /\ _initializers self !! k = Some (regex, init)
          /\ re_search regex name' = true
          /\ raised (Init__call__ float_one torch_nn_init init (Var t') g') = Some e).
Proof.
  intros Hl Hno r.
  assert (forall k, (pos, k) ∉ calls (final r)) as Hnot.
  { intros k Hin. destruct (calls_sound self module g pos k Hin)
      as (name' & t' & regex & init & _ & Hl' & Hf & _).
    rewrite Hl in Hl'. injection Hl' as <- <-.
    exact (unmatched_not_first _ _ _ _ _ Hno Hf). }
  split; [|split; [exact Hnot|split]].
  - apply not_called_unchanged; assumption.
  - intros Hnone. subst r.
    destruct (call_unfold self module g) as (res & ps' & st & Hloop & Hres & _ & _ & _ & Hlog & _).
    rewrite Hres in Hnone. subst res. rewrite (Hlog eq_refl).
    rewrite (for_parameters_uninitialized _ _ _ _ _ _ Hloop). simpl.
    rewrite !elem_of_app. right. right. right.
    apply list_elem_of_In, in_map_iff. exists name. split; [reflexivity|].
    apply list_elem_of_In, elem_of_elements. apply elem_of_union. left.
    apply elem_of_list_to_set, unmatched_names_spec. split.
    + exists t. eapply list_elem_of_lookup_2, Hl.
    + apply first_match_None, Hno.
  - intros e He. destruct (raise_source self module g e He)
      as (pos' & name' & t' & k & regex & init & g' & Hl' & (Hk & Hm & _) & Hraise).
    exists pos', name', t', k, regex, init, g'. repeat split; assumption.
Qed.

(** C5: during one call of apply no parameter has an initializer invoked
    on it twice; apply returns [None]; it keeps the names of the module's
    parameters, and a parameter on which no initializer was invoked keeps
    its tensor. *)
Theorem apply_once_per_parameter (self : InitializerApplicator Float)
    (module : list (string * Tensor Float)) (g : Generator) :
  let r := InitializerApplicator__call__ float_one torch_nn_init re_search self module g in
  NoDup (map fst (calls (final r)))
  /\ apply_returned r = None
  /\ map fst (module_after r) = map fst module
  /\ (forall pos name t, module !! pos = Some (name, t) ->
        (forall k, (pos, k) ∉ calls (final r)) ->
        module_after r !! pos = Some (name, t))
  /\ (forall pos k, (pos, k) ∈ calls (final r) ->
        exists name t regex, module !! pos = Some (name, t)
                             /\ regex ∈ map fst (_initializers self)
                             /\ re_search regex name = true).
Proof.
  intros r. split; [apply calls_NoDup|]. split; [|split; [|split]].
  - destruct (call_unfold self module g) as (? & ? & ? & _ & _ & Hret & _). exact Hret.
  - subst r. destruct (call_unfold self module g) as (res & ps' & st & Hloop & _ & _ & -> & _).
    eapply for_parameters_names, Hloop.
  - intros pos name t. apply not_called_unchanged.
  - intros pos k Hin. destruct (calls_sound self module g pos k Hin)
      as (name & t & regex & init & _ & Hl & (Hk & Hm & _) & _).
    exists name, t, regex. split; [exact Hl|]. split; [|exact Hm].
    apply list_elem_of_In, in_map_iff. exists (regex, init). split; [reflexivity|].
    apply list_elem_of_In. eapply list_elem_of_lookup_2, Hk.
Qed.


(** C10 (amended): unused-pattern tracking is keyed by the regex string.
    When the same string stands in two pairs, the later pair's initializer
    is never invoked; and when that string is the first matching pattern
    of some parameter, no warning about it is logged, for neither
    occurrence. *)
Theorem apply_unused_keyed_by_string (self : InitializerApplicator Float)
    (module : list (string * Tensor Float)) (g : Generator)
    (regex : string) (i j : nat) (init_i init_j : Init Float) :
  (i < j)%nat ->
  _initializers self !! i = Some (regex, init_i) ->
  _initializers self !! j = Some (regex, init_j) ->
  let r := InitializerApplicator__call__ float_one torch_nn_init re_search self module g in
  (forall pos, (pos, j) ∉ calls (final r))
  /\ ((exists pos name t k init,
         module !! pos = Some (name, t)
         /\ _initializers self !! k = Some (regex, init)
         /\ re_search regex name = true
         /\ (forall k' p, (k' < k)%nat -> _initializers self !! k' = Some p ->
               re_search (fst p) name = false)) ->
      (WARNING, unused_message regex) ∉ log (final r)).
Proof.
  intros Hij Hi Hj r. split.
  - intros pos Hin. destruct (calls_sound self module g pos j Hin)
      as (name & t & regex' & init' & _ & _ & (Hk & Hm & Hlt) & _).
    rewrite Hj in Hk. injection Hk as <- <-.
    specialize (Hlt i _ Hij Hi). simpl in Hlt. congruence.
  - intros (pos & name & t & k & init & Hl & Hf) Hin.
    apply warning_logged in Hin. destruct Hin as [_ (regex' & Heq & _ & Hnot)].
    apply append_inj_r in Heq. subst regex'. apply Hnot.
    apply used_regexes_spec. exists pos, name, t, k, init. split; [exact Hl|exact Hf].
Qed.

End ApplyRuns.

(** ** block_orthogonal: the divisibility check and the blocks *)

Section BlockClaims.

Context {Float Generator : Type}.
Variable torch_nn_init :
  TorchInit -> TensorArg Float -> gmap string (Value Float) -> Generator
  -> Outcome Float Generator.

(** C2 (amended): when no split size paired with a dimension is zero and
    some dimension size is not evenly divisible by its split size,
    block_orthogonal raises the configuration error whose message gives
    the sizes and the split sizes, before any block is assigned: the
    tensor and the generator are as they were. *)
Theorem block_orthogonal_indivisible (tensor : TensorArg Float) (split_sizes : list Z)
    (gain : Value Float) (g : Generator) :
  let sizes := map Z.of_nat (size (arg_tensor tensor)) in
  Forall (fun p : Z * Z => snd p <> 0) (zip sizes split_sizes) ->
  Exists (fun p : Z * Z => ~ (snd p | fst p)) (zip sizes split_sizes) ->
  block_orthogonal torch_nn_init tensor split_sizes gain g
  = mkBlockRun
      (Some (ConfigurationError
               ("tensor dimensions must be divisible by their respective split_sizes. Found size: "
                  +:+ repr_ints sizes +:+ " and split_sizes: " +:+ repr_ints split_sizes)))
      None (arg_tensor tensor) g [].
Proof.
  intros sizes Hnz Hex.
  assert (block_orthogonal_tensor torch_nn_init (arg_tensor tensor) split_sizes gain g
          = mkBlockRun
              (Some (ConfigurationError (divisibility_message sizes split_sizes)))
              None (arg_tensor tensor) g []) as Hrun.
  { unfold block_orthogonal_tensor. fold sizes.
    rewrite remainders_nonzero by exact Hnz.
    rewrite any_map_true; [reflexivity|].
    rewrite Exists_exists in *. destruct Hex as ([a b] & Hin & Hnd).
    exists (a, b). split; [exact Hin|]. simpl in *.
    rewrite Forall_forall in Hnz. specialize (Hnz _ Hin). simpl in Hnz.
    apply negb_true_iff, Z.eqb_neq. intros Hmod. apply Hnd.
    apply Z.mod_divide; assumption. }
  destruct tensor as [t|t]; simpl in *; [exact Hrun|].
  rewrite Hrun. reflexivity.
Qed.

(** C3 (amended): when every split size paired with a dimension is
    positive and divides the dimension's size, block_orthogonal visits the
    blocks whose start offsets are the Cartesian product, in dimension
    order, of the per-dimension offsets [0, split, 2*split, ...] below the
    size, in lexicographic order; each block is the slice
    [start : start + split] per dimension; every multi-index of the tensor
    lies in exactly one block; and the run assigns to these blocks in this
    order, stopping early only if the orthogonal routine raises. *)
Theorem block_orthogonal_blocks_tile (tensor : TensorArg Float) (split_sizes : list Z)
    (gain : Value Float) (g : Generator) :
  let sizes := size (arg_tensor tensor) in
  evenly_split sizes split_sizes ->
  let starts := cartesian (offset_pools sizes split_sizes) in
  let blocks := map (fun block_start_indices => block_slice block_start_indices split_sizes)
                    starts in
  let r := block_orthogonal torch_nn_init tensor split_sizes gain g in
  block_slices sizes split_sizes = inr blocks
  /\ StronglySorted lex_lt starts
  /\ (forall idx, in_bounds sizes idx = true -> covering sizes blocks idx = 1%nat)
  /\ run_writes r `prefix_of` blocks
  /\ (run_raised r = None -> run_writes r = blocks)
  /\ (forall e, run_raised r = Some e -> raised_by_orthogonal torch_nn_init gain e).
Proof.
  intros sizes Hev starts blocks r.
  destruct (block_orthogonal_arg torch_nn_init tensor split_sizes gain g)
    as (Hraised & _ & _ & Hwrites).
  destruct (block_orthogonal_tensor_run torch_nn_init (arg_tensor tensor) split_sizes gain g Hev)
    as (Hpre & Hall & Herr & _).
  subst r. rewrite Hraised, Hwrites.
  split; [apply evenly_split_block_slices, Hev|].
  split; [apply cartesian_sorted, offset_pools_sorted, Hev|].
  split; [intros idx Hidx; apply covering_cartesian; assumption|].
  split; [exact Hpre|]. split; [exact Hall|exact Herr].
Qed.


End BlockClaims.

(** ** The registry and Initializer.from_params *)

Section RegistryClaims.

Context {Float Generator : Type}.
Variable float_one : Float.
Variable torch_nn_init :
  TorchInit -> TensorArg Float -> gmap string (Value Float) -> Generator
  -> Outcome Float Generator.




(** C6: constructing an Initializer from a name that is not registered,
    given as a bare string or as the [type] field of a map, fails with a
    configuration error, so that no initializer is returned. *)
Theorem from_params_unknown_name (name : string) :
  _registry Float !! name = None ->
  (exists msg, Initializer_from_params (Float := Float) (PStr name)
               = inl (ConfigurationError msg))
  /\ (forall params : gmap string (Value Float), params !! "type" = Some (VStr name) ->
        exists msg, Initializer_from_params (PMap params) = inl (ConfigurationError msg)).
Proof.
  intros Hnone. split.
  - simpl. unfold by_name. rewrite Hnone. simpl. eexists. reflexivity.
  - intros params Htype. simpl. unfold pop_choice. rewrite Htype.
    destruct (bool_decide (name ∈ list_available)); simpl.
    + unfold by_name. rewrite Hnone. simpl. eexists. reflexivity.
    + eexists. reflexivity.
Qed.

End RegistryClaims.

(** ** The properties on concrete inputs *)

Lemma apply_first_match_wins_witness :
  (0%nat, 0%nat) ∈ calls (final (Examples.run Examples.applicator Examples.layer 0%nat)).
Proof.
  refine (proj2 (proj2 (apply_first_match_wins 1 Demo.torch_nn_init Demo.re_search
                          Examples.applicator Examples.layer 0%nat))
                _ 0%nat "layer.weight" (Demo.zeros [2; 2]%nat) 0%nat "weight" (Demo.const 1)
                _ _ _ _).
  - vm_compute. reflexivity.
  - reflexivity.
  - reflexivity.
  - vm_compute. reflexivity.
  - intros k' p Hk'. lia.
Defined.

Lemma block_orthogonal_indivisible_witness :
  let r := block_orthogonal Demo.torch_nn_init (Raw (Demo.zeros [10; 5]%nat)) [3; 5]
             (VInt 1) 0%nat in
  run_raised r
  = Some (ConfigurationError
            "tensor dimensions must be divisible by their respective split_sizes. Found size: [10, 5] and split_sizes: [3, 5]")
  /\ run_writes r = [] /\ run_tensor r = Demo.zeros [10; 5]%nat.
Proof.
  assert (Forall (fun p : Z * Z => snd p <> 0) (zip (map Z.of_nat [10; 5]%nat) [3; 5])) as Hnz
    by (repeat constructor; simpl; lia).
  assert (Exists (fun p : Z * Z => ~ (snd p | fst p)) (zip (map Z.of_nat [10; 5]%nat) [3; 5]))
    as Hex by (left; simpl; intros [q Hq]; lia).
  pose proof (block_orthogonal_indivisible Demo.torch_nn_init (Raw (Demo.zeros [10; 5]%nat))
                [3; 5] (VInt 1) 0%nat Hnz Hex) as Hrun.
  cbv zeta. rewrite Hrun. repeat split.
Defined.

(** C2, as stated, fails: a split size of zero beside a dimension that its
    split size does not divide makes [a % b] raise [ZeroDivisionError]
    while the list of remainders is built, so no configuration error is
    raised. *)
Lemma block_orthogonal_zero_split_counterexample :
  let r := block_orthogonal Demo.torch_nn_init (Raw (Demo.zeros [10; 5]%nat)) [3; 0]
             (VInt 1) 0%nat in
  Exists (fun p : Z * Z => ~ (snd p | fst p)) (zip (map Z.of_nat [10; 5]%nat) [3; 0])
  /\ run_raised r = Some ZeroDivisionError
  /\ ~ (exists msg, run_raised r = Some (ConfigurationError msg)).
Proof.
  split; [|split].
  - left. simpl. intros [q Hq]. lia.
  - reflexivity.
  - intros [msg Hmsg]. discriminate Hmsg.
Qed.

Lemma block_orthogonal_blocks_tile_witness :
  let blocks := [ [Slice 0 2; Slice 0 3]; [Slice 0 2; Slice 3 6];
                  [Slice 2 4; Slice 0 3]; [Slice 2 4; Slice 3 6] ] in
  block_slices [4; 6]%nat [2; 3] = inr blocks
  /\ covering [4; 6]%nat blocks [3; 2]%nat = 1%nat
  /\ run_writes (block_orthogonal Demo.torch_nn_init (Raw (Demo.zeros [4; 6]%nat)) [2; 3]
                   (VInt 1) 0%nat) = blocks.
Proof.
  assert (evenly_split [4; 6]%nat [2; 3]) as Hev.
  { repeat constructor; simpl; try lia; [exists 2|exists 2]; reflexivity. }
  destruct (block_orthogonal_blocks_tile Demo.torch_nn_init (Raw (Demo.zeros [4; 6]%nat))
              [2; 3] (VInt 1) 0%nat Hev) as (Hblocks & _ & Hcover & _ & Hall & _).
  split; [exact Hblocks|]. split.
  - apply Hcover. reflexivity.
  - apply Hall. reflexivity.
Defined.

(** C3, as stated, fails: -5 divides 10 and the check [10 % -5 != 0]
    passes, but [range(0, 10, -5)] is empty, so no block is visited and
    the index 0 lies in no block. *)
Lemma block_orthogonal_negative_split_counterexample :
  let r := block_orthogonal Demo.torch_nn_init (Raw (Demo.zeros [10]%nat)) [-5]
             (VInt 1) 0%nat in
  Forall (fun p : Z * Z => (snd p | fst p)) (zip (map Z.of_nat [10]%nat) [-5])
  /\ block_slices [10]%nat [-5] = inr []
  /\ run_raised r = None /\ run_writes r = []
  /\ in_bounds [10]%nat [0]%nat = true
  /\ covering [10]%nat [] [0]%nat = 0%nat.
Proof.
  split; [|repeat split].
  repeat constructor. exists (-2). reflexivity.
Qed.


Lemma apply_unmatched_unchanged_witness :
  module_after (Examples.run Examples.applicator Examples.layer 0%nat) !! 1%nat
  = Some ("embedding", Demo.zeros [3]%nat).
Proof.
  refine (proj1 (apply_unmatched_unchanged 1 Demo.torch_nn_init Demo.re_search
                   Examples.applicator Examples.layer 0%nat 1%nat "embedding"
                   (Demo.zeros [3]%nat) _ _)).
  - reflexivity.
  - intros p Hp. unfold Examples.applicator in Hp. simpl in Hp.
    repeat (apply elem_of_cons in Hp; destruct Hp as [->|Hp]; [reflexivity|]).
    inversion Hp.
Defined.

Lemma apply_once_per_parameter_witness :
  NoDup (map fst (calls (final (Examples.run Examples.applicator Examples.layer 0%nat))))
  /\ apply_returned (Examples.run Examples.applicator Examples.layer 0%nat) = None.
Proof.
  destruct (apply_once_per_parameter 1 Demo.torch_nn_init Demo.re_search
              Examples.applicator Examples.layer 0%nat) as (Hnd & Hret & _).
  split; [exact Hnd|exact Hret].
Defined.


Lemma apply_unused_keyed_by_string_witness :
  let r := Examples.run Examples.duplicated [("b.ab", Demo.zeros [2]%nat)] 0%nat in
  (forall pos, (pos, 2%nat) ∉ calls (final r))
  /\ (WARNING, unused_message "ab") ∉ log (final r).
Proof.
  destruct (apply_unused_keyed_by_string 1 Demo.torch_nn_init Demo.re_search
              Examples.duplicated [("b.ab", Demo.zeros [2]%nat)] 0%nat
              "ab" 1%nat 2%nat (Demo.const 2) (Demo.const 3))
    as [Hnever Hunused]; [lia|reflexivity|reflexivity|].
  split; [exact Hnever|]. apply Hunused.
  exists 0%nat, "b.ab", (Demo.zeros [2]%nat), 1%nat, (Demo.const 2).
  split; [reflexivity|]. split; [reflexivity|]. split; [reflexivity|].
  intros [|k'] p Hk' Hp; [|lia]. injection Hp as <-. reflexivity.
Defined.

(** C10, as stated, fails: the string "ab" stands in two pairs and is
    found in the name of the parameter "ab", but that parameter is taken
    by the earlier pattern "a", so "ab" is never discarded from the unused
    set and the warning about it is logged. *)
Lemma apply_shadowed_pattern_counterexample :
  let r := Examples.run Examples.shadowed [("ab", Demo.zeros [2]%nat)] 0%nat in
  _initializers Examples.shadowed !! 1%nat = Some ("ab", Demo.const 2)
  /\ _initializers Examples.shadowed !! 2%nat = Some ("ab", Demo.const 3)
  /\ Demo.re_search "ab" "ab" = true
  /\ apply_raised r = None
  /\ (WARNING, unused_message "ab") ∈ log (final r).
Proof.
  repeat split.
  vm_compute. right. right. left.
Qed.

Lemma from_params_unknown_name_witness :
  exists msg, Initializer_from_params (Float := Z) (PStr "not_a_real_name")
              = inl (ConfigurationError msg).
Proof.
  refine (proj1 (from_params_unknown_name (Float := Z) "not_a_real_name" _)).
  vm_compute. reflexivity.
Defined.

(** ** Further properties of block_orthogonal *)

Lemma cartesian_empty_pool {A} (pools : list (list A)) :
  [] ∈ pools -> cartesian pools = [].
Proof.
  induction pools as [|pool rest IH]; intros Hin; [inversion Hin|].
  apply elem_of_cons in Hin. destruct Hin as [<-|Hin]; [reflexivity|].
  simpl. rewrite (IH Hin). clear. induction pool; simpl; auto.
Qed.

Lemma cartesian_count {A} (pools : list (list A)) :
  length (cartesian pools) = foldr (fun pool acc => (length pool * acc)%nat) 1%nat pools.
Proof.
  induction pools as [|pool rest IH]; simpl; [reflexivity|].
  rewrite <- IH. clear IH. induction pool as [|y pool IHp]; simpl; [reflexivity|].
  rewrite length_app, length_map, IHp. reflexivity.
Qed.

Lemma indexes_nonzero (pairs : list (Z * Z)) :
  Forall (fun p => snd p <> 0) pairs ->
  indexes pairs = inr (map (fun p => range_from_zero (fst p) (snd p)) pairs).
Proof.
  induction 1 as [|[a b] pairs Hb _ IH]; simpl in *; [reflexivity|].
  unfold range. destruct (Z.eqb_spec b 0) as [|_]; [contradiction|].
  simpl. rewrite IH. reflexivity.
Qed.

Lemma range_from_zero_negative (max_size split : Z) :
  0 <= max_size -> split < 0 -> range_from_zero max_size split = [].
Proof.
  intros Hn Hs. unfold range_from_zero, range_len.
  destruct (Z.ltb_spec 0 split); [lia|].
  destruct (Z.ltb_spec max_size 0); [lia|]. reflexivity.
Qed.

Section BlockExtras.

Context {Float Generator : Type}.
Variable torch_nn_init :
  TorchInit -> TensorArg Float -> gmap string (Value Float) -> Generator
  -> Outcome Float Generator.

Lemma for_blocks_size (blocks : list (list Z)) (split_sizes : list Z) (gain : Value Float) :
  forall (t : Tensor Float) (g : Generator) (w : list (list slice)),
  size (run_tensor (for_blocks torch_nn_init blocks split_sizes gain t g w)) = size t.
Proof.
  induction blocks as [|starts blocks IH]; intros t g w; simpl; [reflexivity|].
  destruct (getitem t _) as [e|sub]; [reflexivity|].
  destruct (raised _); [reflexivity|].
  unfold setitem. destruct (_ <? _)%nat; [reflexivity|].
  rewrite IH. reflexivity.
Qed.


(** A zero split size beside a dimension makes the divisibility check
    itself raise [ZeroDivisionError], whatever the other dimensions are;
    nothing is assigned and the tensor and the generator are as before. *)
Theorem block_orthogonal_zero_split (tensor : TensorArg Float) (split_sizes : list Z)
    (gain : Value Float) (g : Generator) :
  Exists (fun p : Z * Z => snd p = 0)
         (zip (map Z.of_nat (size (arg_tensor tensor))) split_sizes) ->
  block_orthogonal torch_nn_init tensor split_sizes gain g
  = mkBlockRun (Some ZeroDivisionError) None (arg_tensor tensor) g [].
Proof.
  intros Hex.
  assert (block_orthogonal_tensor torch_nn_init (arg_tensor tensor) split_sizes gain g
          = mkBlockRun (Some ZeroDivisionError) None (arg_tensor tensor) g []) as Hrun.
  { unfold block_orthogonal_tensor. rewrite remainders_zero by exact Hex. reflexivity. }
  destruct tensor as [t|t]; simpl in *; rewrite Hrun; reflexivity.
Qed.

(** A negative split size that passes the divisibility check makes
    block_orthogonal a silent no-op: the offsets of that dimension are
    empty, so no block is visited, no exception is raised, and the tensor
    and the generator are as before. *)
Theorem block_orthogonal_negative_split (tensor : TensorArg Float) (split_sizes : list Z)
    (gain : Value Float) (g : Generator) :
  let pairs := zip (map Z.of_nat (size (arg_tensor tensor))) split_sizes in
  Forall (fun p : Z * Z => snd p <> 0 /\ (snd p | fst p)) pairs ->
  Exists (fun p : Z * Z => snd p < 0) pairs ->
  let r := block_orthogonal torch_nn_init tensor split_sizes gain g in
  run_raised r = None /\ run_writes r = []
  /\ run_tensor r = arg_tensor tensor /\ run_gen r = g.
Proof.
  intros pairs Hdiv Hneg r.
  assert (block_orthogonal_tensor torch_nn_init (arg_tensor tensor) split_sizes gain g
          = mkBlockRun None None (arg_tensor tensor) g []) as Hrun.
  { unfold block_orthogonal_tensor. fold pairs.
    rewrite remainders_nonzero
      by (eapply Forall_impl; [exact Hdiv|]; intros ? [? _]; assumption).
    rewrite any_map_false.
    2:{ eapply Forall_impl; [exact Hdiv|]. intros [a b] [Hb Hd]; simpl in *.
        apply Z.mod_divide in Hd; [|exact Hb]. rewrite Hd. reflexivity. }
    rewrite indexes_nonzero
      by (eapply Forall_impl; [exact Hdiv|]; intros ? [? _]; assumption).
    rewrite product_cartesian, cartesian_empty_pool; [reflexivity|].
    apply Exists_exists in Hneg. destruct Hneg as ([a b] & Hin & Hb). simpl in Hb.
    apply list_elem_of_In, in_map_iff. exists (a, b). split; [|apply list_elem_of_In, Hin].
    simpl. apply range_from_zero_negative; [|exact Hb].
    pose proof (zip_sizes_nonneg (size (arg_tensor tensor)) split_sizes) as Hnn.
    rewrite Forall_forall in Hnn. apply (Hnn (a, b) Hin). }
  destruct (block_orthogonal_arg torch_nn_init tensor split_sizes gain g)
    as (Hraised & Htensor & Hgen & Hwrites).
  subst r. rewrite Hraised, Htensor, Hgen, Hwrites, Hrun. repeat split.
Qed.

(** block_orthogonal never changes the shape of the tensor, whether it
    returns or raises. *)
Theorem block_orthogonal_keeps_size (tensor : TensorArg Float) (split_sizes : list Z)
    (gain : Value Float) (g : Generator) :
  size (run_tensor (block_orthogonal torch_nn_init tensor split_sizes gain g))
  = size (arg_tensor tensor).
Proof.
  destruct (block_orthogonal_arg torch_nn_init tensor split_sizes gain g)
    as (_ & -> & _).
  unfold block_orthogonal_tensor.
  destruct (remainders _); [reflexivity|]. destruct (any _); [reflexivity|].
  destruct (indexes _); [reflexivity|]. apply for_blocks_size.
Qed.



(** When every split size is positive and divides its dimension and the
    orthogonal routine never raises, block_orthogonal assigns exactly
    [size / split] blocks per dimension, multiplied over the dimensions. *)
Theorem block_orthogonal_block_count (tensor : TensorArg Float) (split_sizes : list Z)
    (gain : Value Float) (g : Generator) :
  evenly_split (size (arg_tensor tensor)) split_sizes ->
  let r := block_orthogonal torch_nn_init tensor split_sizes gain g in
  run_raised r = None ->
  length (run_writes r) = block_count (size (arg_tensor tensor)) split_sizes.
Proof.
  intros Hev r Hnone. subst r.
  destruct (block_orthogonal_arg torch_nn_init tensor split_sizes gain g)
    as (Hraised & _ & _ & Hwrites).
  rewrite Hraised in Hnone. rewrite Hwrites.
  destruct (block_orthogonal_tensor_run torch_nn_init (arg_tensor tensor) split_sizes gain g Hev)
    as (_ & Hall & _).
  rewrite (Hall Hnone), length_map, cartesian_count.
  unfold offset_pools, block_count.
  induction (zip _ _) as [|[a b] pairs IH]; simpl; [reflexivity|].
  rewrite IH. unfold offsets. rewrite length_map, length_seq. reflexivity.
Qed.

End BlockExtras.

(** ** Further properties of the wrapper and of from_params *)

Section InitExtras.

Context {Float Generator : Type}.
Variable float_one : Float.
Variable torch_nn_init :
  TorchInit -> TensorArg Float -> gmap string (Value Float) -> Generator
  -> Outcome Float Generator.

(** An initializer wrapping block_orthogonal that was built without
    [split_sizes], or with a keyword other than [split_sizes] and [gain],
    raises a [TypeError] when it is called, and leaves the tensor and the
    generator as they were. *)
Theorem block_orthogonal_initializer_bad_kwargs (kwargs : gmap string (Value Float))
    (tensor : TensorArg Float) (g : Generator) :
  kwargs !! "split_sizes" = None
  \/ ~ (dom kwargs ⊆ ({[ "split_sizes"; "gain" ]} : gset string)) ->
  exists msg,
    Init__call__ float_one torch_nn_init (mkInit block_orthogonal_function kwargs) tensor g
    = mkOutcome (Some (TypeError msg)) (arg_tensor tensor) g.
Proof.
  intros Hbad. unfold Init__call__, invoke, bind_block_orthogonal. simpl.
  destruct (bool_decide_reflect (dom kwargs ⊆ ({[ "split_sizes"; "gain" ]} : gset string)))
    as [Hsub|Hsub].
  - destruct Hbad as [Hnone|Hnot]; [|contradiction].
    rewrite Hnone. eexists. reflexivity.
  - eexists. reflexivity.
Qed.



(** An applicator built by from_params has one pair per entry of the
    configuration, in the same order, with the entry's pattern and the
    initializer that Initializer.from_params builds from the entry. *)
Theorem applicator_from_params_pairs (params : list (string * InitParams Float))
    (a : InitializerApplicator Float) :
  InitializerApplicator_from_params params = inr a ->
  map fst (_initializers a) = map fst params
  /\ Forall2 (fun p q => Initializer_from_params (snd p) = inr (snd q))
             params (_initializers a).
Proof.
  unfold InitializerApplicator_from_params.
  destruct (from_params_list params) as [e|inits] eqn:Hlist; simpl; [discriminate|].
  intros [= <-]. simpl. revert inits Hlist.
  induction params as [|[name spec] params IH]; simpl; intros inits.
  - intros [= <-]. split; [reflexivity|constructor].
  - destruct (Initializer_from_params spec) as [e|init] eqn:Hinit; simpl; [discriminate|].
    destruct (from_params_list params) as [e|rest]; simpl; [discriminate|].
    intros [= <-]. destruct (IH rest eq_refl) as [Hnames Hall].
    simpl. split; [f_equal; exact Hnames|]. constructor; [exact Hinit|exact Hall].
Qed.

(** from_params of the applicator fails with the error of the first entry
    whose initializer cannot be built, and builds no applicator. *)
Theorem applicator_from_params_first_error
    (before after : list (string * InitParams Float))
    (entry : string * InitParams Float) (e : Exn) :
  Forall (fun p => exists init, Initializer_from_params (snd p) = inr init) before ->
  Initializer_from_params (snd entry) = inl e ->
  InitializerApplicator_from_params (before ++ entry :: after) = inl e.
Proof.
  intros Hbefore Hentry. unfold InitializerApplicator_from_params.
  assert (from_params_list (before ++ entry :: after) = inl e) as ->; [|reflexivity].
  induction Hbefore as [|[name spec] before [init Hinit] _ IH]; simpl in *.
  - destruct entry as [name spec]. simpl in Hentry. rewrite Hentry. reflexivity.
  - rewrite Hinit. simpl. rewrite IH. reflexivity.
Qed.

End InitExtras.

(** ** Further properties of the applicator *)

Section ApplyExtras.

Context {Float Generator : Type}.
Variable float_one : Float.
Variable torch_nn_init :
  TorchInit -> TensorArg Float -> gmap string (Value Float) -> Generator
  -> Outcome Float Generator.
Variable re_search : string -> string -> bool.

Local Abbreviation loop := (for_parameters float_one torch_nn_init re_search).
Local Abbreviation scan := (first_match re_search).

Lemma loop_unmatched_prefix (initializers : list (string * Init Float))
    (pre ps : list (string * Tensor Float)) :
  forall j st,
  (forall q, q ∈ pre -> scan initializers (fst q) 0 = None) ->
  loop initializers j (pre ++ ps) st
  = let '(r, ps', st') :=
      loop initializers (j + length pre) ps
           (mkApplyState (log st) (unused_regexes st)
                         (list_to_set (map fst pre) ∪ uninitialized_parameters st)
                         (gen st) (calls st)) in
    (r, pre ++ ps', st').
Proof.
  induction pre as [|[name t] pre IH]; intros j st Hno.
  - simpl. rewrite Nat.add_0_r, (left_id_L ∅ (∪)). destruct st; simpl.
    destruct (loop _ _ _ _) as [[r ps'] st']. reflexivity.
  - pose proof (Hno (name, t) ltac:(left)) as Hname. simpl in Hname.
    simpl. rewrite Hname.
    rewrite IH by (intros q Hq; apply Hno; right; exact Hq). simpl.
    replace (list_to_set (map fst pre) ∪ ({[name]} ∪ uninitialized_parameters st))
      with ({[name]} ∪ list_to_set (map fst pre) ∪ uninitialized_parameters st)
      by set_solver.
    rewrite Nat.add_succ_r.
    destruct (loop _ _ _ _) as [[r ps'] st']. reflexivity.
Qed.

Lemma for_parameters_log_messages (initializers : list (string * Init Float))
    (ps : list (string * Tensor Float)) :
  forall j st r ps' st', loop initializers j ps st = (r, ps', st') ->
  exists entries,
    log st' = log st ++ entries
    /\ Forall (fun e => exists name regex, e = (INFO, initializing_message name regex)) entries.
Proof.
  induction ps as [|[name t] ps IH]; intros j st r ps' st'.
  - simpl. intros [= <- <- <-]. exists []. rewrite app_nil_r. split; [reflexivity|constructor].
  - simpl. destruct (scan initializers name 0) as [[k [regex init]]|].
    + destruct (raised _).
      * intros [= <- <- <-]. simpl. eexists. split; [reflexivity|].
        repeat constructor. eexists _, _. reflexivity.
      * destruct (loop _ _ _ _) as [[r0 rest'] st3] eqn:Hrec. intros [= <- <- <-].
        destruct (IH _ _ _ _ _ Hrec) as (entries & Hl & Hall). simpl in Hl.
        eexists. rewrite Hl, <- app_assoc. split; [reflexivity|].
        constructor; [eexists _, _; reflexivity|exact Hall].
    + destruct (loop _ _ _ _) as [[r0 rest'] st3] eqn:Hrec. intros [= <- <- <-].
      destruct (IH _ _ _ _ _ Hrec) as (entries & Hl & Hall). simpl in Hl.
      exists entries. split; assumption.
Qed.

Lemma block_orthogonal_raises_divisibility (t : Tensor Float) (split_sizes : list Z)
    (gain : Value Float) (g : Generator) :
  Forall (fun p : Z * Z => snd p <> 0) (zip (map Z.of_nat (size t)) split_sizes) ->
  Exists (fun p : Z * Z => ~ (snd p | fst p)) (zip (map Z.of_nat (size t)) split_sizes) ->
  block_orthogonal torch_nn_init (Var t) split_sizes gain g
  = mkBlockRun
      (Some (ConfigurationError (divisibility_message (map Z.of_nat (size t)) split_sizes)))
      None t g [].
Proof.
  intros Hnz Hex. simpl. unfold block_orthogonal_tensor.
  rewrite remainders_nonzero by exact Hnz.
  rewrite any_map_true; [reflexivity|].
  rewrite Exists_exists in *. destruct Hex as ([a b] & Hin & Hnd).
  exists (a, b). split; [exact Hin|]. simpl in *.
  rewrite Forall_forall in Hnz. specialize (Hnz _ Hin). simpl in Hnz.
  apply negb_true_iff, Z.eqb_neq. intros Hmod. apply Hnd.
  apply Z.mod_divide; assumption.
Qed.


(** A warning is in the log exactly when apply returned and the message
    is the unused-pattern message of a pattern of the list that is the
    first matching pattern of no parameter. *)
Theorem apply_warning_iff (self : InitializerApplicator Float)
    (module : list (string * Tensor Float)) (g : Generator) (m : string) :
  let r := InitializerApplicator__call__ float_one torch_nn_init re_search self module g in
  (WARNING, m) ∈ log (final r) <->
  apply_raised r = None
  /\ exists regex,
       m = unused_message regex
       /\ regex ∈ map fst (_initializers self)
       /\ ~ (exists pos name t k init,
               module !! pos = Some (name, t)
               /\ is_first_match re_search (_initializers self) name k regex init).
Proof.
  intros r. subst r. rewrite warning_logged. split.
  - intros [Hnone (regex & -> & Hin & Hnot)]. split; [exact Hnone|].
    exists regex. split; [reflexivity|]. split; [exact Hin|].
    intros Hused. apply Hnot. apply used_regexes_spec. exact Hused.
  - intros [Hnone (regex & -> & Hin & Hnot)]. split; [exact Hnone|].
    exists regex. split; [reflexivity|]. split; [exact Hin|].
    intros Hused. apply Hnot. apply used_regexes_spec in Hused. exact Hused.
Qed.

(** The line naming a parameter as left at its default initialization is
    in the log exactly when apply returned and the name is that of a
    parameter of the module that no pattern of the list is found in. *)
Theorem apply_default_logged_iff (self : InitializerApplicator Float)
    (module : list (string * Tensor Float)) (g : Generator) (name : string) :
  let r := InitializerApplicator__call__ float_one torch_nn_init re_search self module g in
  (INFO, default_message name) ∈ log (final r) <->
  apply_raised r = None
  /\ name ∈ map fst module
  /\ forall p, p ∈ _initializers self -> re_search (fst p) name = false.
Proof.
  intros r. subst r.
  destruct (call_unfold float_one torch_nn_init re_search self module g)
    as (res & ps' & st & Hloop & -> & _ & _ & _ & Hlog & Hlog').
  destruct (for_parameters_log_messages _ _ _ _ _ _ _ Hloop) as (entries & Hst & Hmsg).
  simpl in Hst. rewrite Forall_forall in Hmsg.
  assert (forall e, e ∈ (INFO, "Initializing parameters") :: entries ->
                    e <> (INFO, default_message name)) as Hhead.
  { intros e He Heq. subst e. apply elem_of_cons in He. destruct He as [He|He].
    - discriminate He.
    - destruct (Hmsg _ He) as (n & rx & Hn). discriminate Hn. }
  destruct res as [e|].
  - rewrite Hlog', Hst by discriminate. split; [|intros [? _]; discriminate].
    intros Hin. exfalso. exact (Hhead _ Hin eq_refl).
  - rewrite (Hlog eq_refl), Hst. clear Hlog Hlog'.
    rewrite (for_parameters_uninitialized _ _ _ _ _ _ _ _ _ Hloop).
    change (uninitialized_parameters (initial_state self g)) with (∅ : gset string).
    rewrite (right_id_L ∅ (∪)).
    assert ((INFO, default_message name)
              ∈ map (fun n => (INFO, default_message n))
                    (elements (list_to_set (unmatched_names re_search (_initializers self) module)
                               : gset string))
            <-> name ∈ unmatched_names re_search (_initializers self) module) as Hnames.
    { rewrite list_elem_of_In, in_map_iff. split.
      - intros (n & [= Hn] & Hin). apply append_inj_r in Hn. subst n.
        apply list_elem_of_In, elem_of_elements, elem_of_list_to_set in Hin. exact Hin.
      - intros Hin. exists name. split; [reflexivity|].
        apply list_elem_of_In, elem_of_elements, elem_of_list_to_set. exact Hin. }
    rewrite !elem_of_app, Hnames, unmatched_names_spec, first_match_None. split.
    + intros [Hin|[Hin|[Hin|[[t Ht] Hno]]]].
      * exfalso. exact (Hhead _ Hin eq_refl).
      * apply list_elem_of_In, in_map_iff in Hin. destruct Hin as (? & [=] & _).
      * apply list_elem_of_singleton in Hin. discriminate Hin.
      * split; [reflexivity|]. split; [|exact Hno].
        apply list_elem_of_In, in_map_iff. exists (name, t). split; [reflexivity|].
        apply list_elem_of_In, Ht.
    + intros (_ & Hin & Hno). right. right. right. split; [|exact Hno].
      apply list_elem_of_In, in_map_iff in Hin. destruct Hin as ([n t] & Hn & Hin).
      simpl in Hn. subst n. exists t. apply list_elem_of_In, Hin.
Qed.

(** The closing line "Done initializing parameters..." is in the log
    exactly when apply returned: a run that an initializer's exception
    ended logs neither it nor the report that follows it. *)
Theorem apply_done_logged_iff (self : InitializerApplicator Float)
    (module : list (string * Tensor Float)) (g : Generator) :
  let r := InitializerApplicator__call__ float_one torch_nn_init re_search self module g in
  (INFO, done_message) ∈ log (final r) <-> apply_raised r = None.
Proof.
  intros r. subst r.
  destruct (call_unfold float_one torch_nn_init re_search self module g)
    as (res & ps' & st & Hloop & -> & _ & _ & _ & Hlog & Hlog').
  destruct (for_parameters_log_messages _ _ _ _ _ _ _ Hloop) as (entries & Hst & Hmsg).
  simpl in Hst. rewrite Forall_forall in Hmsg.
  destruct res as [e|].
  - rewrite Hlog', Hst by discriminate. split; [|discriminate].
    intros Hin. exfalso. apply elem_of_cons in Hin. destruct Hin as [Hin|Hin].
    + discriminate Hin.
    + destruct (Hmsg _ Hin) as (n & rx & Hn). discriminate Hn.
  - rewrite (Hlog eq_refl). split; [reflexivity|]. intros _.
    rewrite !elem_of_app. right. right. left. left.
Qed.

(** A ConfigurationError of block_orthogonal passes through apply: when
    the first parameter that some pattern matches is given to a
    block_orthogonal initializer whose split sizes are non-zero and do
    not all divide the parameter's sizes, apply raises that error and the
    whole module and the generator are as before. *)
Theorem apply_block_orthogonal_indivisible (self : InitializerApplicator Float)
    (before after : list (string * Tensor Float)) (name : string) (t : Tensor Float)
    (g : Generator) (k : nat) (regex : string) (kwargs : gmap string (Value Float))
    (split_sizes : list Z) (gain : Value Float) :
  (forall p q, p ∈ _initializers self -> q ∈ before -> re_search (fst p) (fst q) = false) ->
  is_first_match re_search (_initializers self) name k regex
                 (mkInit block_orthogonal_function kwargs) ->
  bind_block_orthogonal float_one kwargs = inr (split_sizes, gain) ->
  Forall (fun p : Z * Z => snd p <> 0) (zip (map Z.of_nat (size t)) split_sizes) ->
  Exists (fun p : Z * Z => ~ (snd p | fst p)) (zip (map Z.of_nat (size t)) split_sizes) ->
  let module := before ++ (name, t) :: after in
  let r := InitializerApplicator__call__ float_one torch_nn_init re_search self module g in
  apply_raised r
  = Some (ConfigurationError (divisibility_message (map Z.of_nat (size t)) split_sizes))
  /\ module_after r = module
  /\ gen (final r) = g.
Proof.
  intros Hbefore Hfirst Hbind Hnz Hex module r. subst r module.
  unfold InitializerApplicator__call__.
  rewrite loop_unmatched_prefix
    by (intros q Hq; apply first_match_None; intros p Hp; apply Hbefore; assumption).
  assert (scan (_initializers self) name 0
          = Some (k, (regex, mkInit block_orthogonal_function kwargs))) as Hscan
    by (apply first_match_Some; exists k; split; [reflexivity|exact Hfirst]).
  assert (Init__call__ float_one torch_nn_init (mkInit block_orthogonal_function kwargs)
            (Var t) g
          = mkOutcome
              (Some (ConfigurationError
                       (divisibility_message (map Z.of_nat (size t)) split_sizes)))
              t g) as Hcall.
  { unfold Init__call__, invoke. cbn [_init_function _kwargs]. rewrite Hbind.
    rewrite block_orthogonal_raises_divisibility by assumption. reflexivity. }
  cbn [for_parameters gen log unused_regexes uninitialized_parameters calls].
  rewrite Hscan, Hcall. cbn. repeat split.
Qed.

End ApplyExtras.

(** ** The further properties on concrete inputs *)

Lemma block_orthogonal_zero_split_witness :
  block_orthogonal Demo.torch_nn_init (Var (Demo.zeros [10; 5]%nat)) [5; 0] (VInt 1) 0%nat
  = mkBlockRun (Some ZeroDivisionError) None (Demo.zeros [10; 5]%nat) 0%nat [].
Proof.
  apply (block_orthogonal_zero_split Demo.torch_nn_init (Var (Demo.zeros [10; 5]%nat))
           [5; 0] (VInt 1) 0%nat).
  right. left. reflexivity.
Defined.

Lemma block_orthogonal_negative_split_witness :
  let r := block_orthogonal Demo.torch_nn_init (Raw (Demo.zeros [4; 6]%nat)) [2; -3]
             (VInt 1) 0%nat in
  run_raised r = None /\ run_writes r = []
  /\ run_tensor r = Demo.zeros [4; 6]%nat /\ run_gen r = 0%nat.
Proof.
  apply (block_orthogonal_negative_split Demo.torch_nn_init (Raw (Demo.zeros [4; 6]%nat))
           [2; -3] (VInt 1) 0%nat).
  - repeat constructor; simpl; try lia; [exists 2|exists (-2)]; reflexivity.
  - right. left. simpl. lia.
Defined.


Lemma block_orthogonal_block_count_witness :
  length (run_writes (block_orthogonal Demo.torch_nn_init (Raw (Demo.zeros [4; 6]%nat))
                        [2; 3] (VInt 1) 0%nat)) = 4%nat.
Proof.
  apply (block_orthogonal_block_count Demo.torch_nn_init (Raw (Demo.zeros [4; 6]%nat))
           [2; 3] (VInt 1) 0%nat).
  - repeat constructor; simpl; try lia; [exists 2|exists 2]; reflexivity.
  - reflexivity.
Defined.

Lemma block_orthogonal_initializer_bad_kwargs_witness :
  exists msg,
    Init__call__ 1 Demo.torch_nn_init (mkInit block_orthogonal_function ∅)
                 (Var (Demo.zeros [4; 6]%nat)) 0%nat
    = mkOutcome (Some (TypeError msg)) (Demo.zeros [4; 6]%nat) 0%nat.
Proof.
  apply (block_orthogonal_initializer_bad_kwargs 1 Demo.torch_nn_init ∅
           (Var (Demo.zeros [4; 6]%nat)) 0%nat).
  left. reflexivity.
Defined.


Lemma applicator_from_params_pairs_witness :
  exists a, InitializerApplicator_from_params MoreExamples.config = inr a
            /\ map fst (_initializers a) = ["weight"; "bias"].
Proof.
  destruct (InitializerApplicator_from_params MoreExamples.config) as [e|a] eqn:Ha.
  - vm_compute in Ha. discriminate Ha.
  - exists a. split; [reflexivity|].
    exact (proj1 (applicator_from_params_pairs MoreExamples.config a Ha)).
Defined.

Lemma applicator_from_params_first_error_witness :
  exists msg,
    InitializerApplicator_from_params
      ([("weight", PStr "normal")] ++ ("bias", PStr "not_a_real_name")
         :: [("embedding", PStr "uniform")] : list (string * InitParams Z))
    = inl (ConfigurationError msg).
Proof.
  eexists.
  apply (applicator_from_params_first_error (Float := Z) [("weight", PStr "normal")]
           [("embedding", PStr "uniform")] ("bias", PStr "not_a_real_name")).
  - repeat constructor. eexists. vm_compute. reflexivity.
  - vm_compute. reflexivity.
Defined.


Lemma apply_block_orthogonal_indivisible_witness :
  let a := InitializerApplicator__init__ (Some [ ("weight", MoreExamples.blocky [3; 5]) ]) in
  let r := Examples.run a MoreExamples.model 0%nat in
  apply_raised r
  = Some (ConfigurationError
            "tensor dimensions must be divisible by their respective split_sizes. Found size: [10, 5] and split_sizes: [3, 5]")
  /\ module_after r = MoreExamples.model.
Proof.
  destruct (apply_block_orthogonal_indivisible 1 Demo.torch_nn_init Demo.re_search
              (InitializerApplicator__init__ (Some [ ("weight", MoreExamples.blocky [3; 5]) ]))
              [("embedding", Demo.zeros [3]%nat)] [("layer.bias", Demo.zeros [5]%nat)]
              "layer.weight" (Demo.zeros [10; 5]%nat) 0%nat 0%nat "weight"
              {[ "split_sizes" := VList (map VInt [3; 5]) ]} [3; 5] (VFloat 1))
    as (Hraised & Hmodule & _).
  - intros p q Hp Hq. simpl in Hp.
    apply list_elem_of_singleton in Hp, Hq. subst p q. reflexivity.
  - split; [reflexivity|]. split; [reflexivity|]. intros k' p Hk'. lia.
  - vm_compute. reflexivity.
  - repeat constructor; simpl; lia.
  - left. simpl. intros [q Hq]. lia.
  - split; [exact Hraised|exact Hmodule].
Defined.
